(** * pmgo: the Polymarket exchange adapter (pkg/exchange/polymarket)

    A shallow embedding of the order ledger, the submission gate and the
    market-catalog loader of [Exchange], with the properties the
    specification states about them.

    Conventions of the embedding:
    - the environment ([os.Getenv]), the file system ([os.ReadFile]) and the
      clock ([time.Now]) are explicit inputs of every operation that reads
      them;
    - [e.mu] serialises the operations, so each one is a function from the
      state before the call to the result and the state after it;
    - [uint64] is [Z] with the wrap-around at [2^64] written out;
    - [map[uint64]*types.Order] is a [gmap Z Order]: every record is
      allocated by [SubmitOrder] and stored under one key only, so the map
      from identifier to record is the heap the ledger owns;
    - the [logrus] entry written by [SubmitOrder] is not part of the state. *)

From Stdlib Require Import ZArith Ascii String List.
From stdpp Require Import gmap strings list fin_maps.

Set Warnings "-register-all,-clear-no-such-hyp".
Local Open Scope string_scope.
Local Open Scope list_scope.
Local Open Scope Z_scope.

(** ** The Go standard library functions the adapter calls *)

Module Go.

Definition uint64_modulus : Z := 2 ^ 64.

(** [x++] on a [uint64]. *)
Definition uint64_succ (x : Z) : Z := (x + 1) mod uint64_modulus.

(** [os.Getenv]: the value of the variable, empty when it is not set. *)
Definition Getenv (env : gmap string string) (k : string) : string :=
  default "" (env !! k).

(** [strings.TrimSpace] on a byte string. The six ASCII white-space bytes
    are trimmed; bytes from 0x80 on (where Go looks for the Unicode spaces)
    are kept as they are. *)
Definition isSpace (c : ascii) : bool :=
  let n := N_of_ascii c in
  ((9 <=? n) && (n <=? 13) || (n =? 32))%N.

Fixpoint TrimLeft (s : string) : string :=
  match s with
  | String c s' => if isSpace c then TrimLeft s' else s
  | EmptyString => EmptyString
  end.

Fixpoint TrimRight (s : string) : string :=
  match s with
  | String c s' =>
      match TrimRight s' with
      | EmptyString => if isSpace c then EmptyString else String c EmptyString
      | r => String c r
      end
  | EmptyString => EmptyString
  end.

Definition TrimSpace (s : string) : string := TrimRight (TrimLeft s).

(** [strconv.ParseBool]: [None] stands for the syntax error. *)
Definition ParseBool (str : string) : option bool :=
  if bool_decide (str ∈ ["1"; "t"; "T"; "TRUE"; "true"; "True"]) then Some true
  else if bool_decide (str ∈ ["0"; "f"; "F"; "FALSE"; "false"; "False"]) then Some false
  else None.

(** [os.ReadFile]: the content of a file or the [*fs.PathError]. *)
Inductive Errno := ENOENT | EACCES.

Record PathError := { Op : string; Path : string; Err : Errno }.

Inductive file := Readable (content : string) | Unreadable (why : Errno).

Definition ReadFile (fs : gmap string file) (name : string) : PathError + string :=
  match fs !! name with
  | Some (Readable b) => inr b
  | Some (Unreadable why) => inl {| Op := "open"; Path := name; Err := why |}
  | None => inl {| Op := "open"; Path := name; Err := ENOENT |}
  end.

Definition Errno_Error (e : Errno) : string :=
  match e with
  | ENOENT => "no such file or directory"
  | EACCES => "permission denied"
  end.

Definition PathError_Error (e : PathError) : string :=
  Op e +:+ " " +:+ Path e +:+ ": " +:+ Errno_Error (Err e).

End Go.

#[global] Instance Errno_eq_dec : EqDecision Go.Errno.
Proof. solve_decision. Defined.
#[global] Instance PathError_eq_dec : EqDecision Go.PathError.
Proof. solve_decision. Defined.

(** ** [encoding/json]: documents and their syntax *)

Module JSON.

(** A JSON document. A number keeps its literal, as the decoder reads it
    again by the type of the field it is stored in. *)
Inductive value :=
| Null
| Bool (b : bool)
| Number (lit : string)
| Str (s : string)
| Array (items : list value)
| Object (members : list (string * value)).

(** What [json.Unmarshal] fails with: the document is not well formed, or
    a value of it cannot be stored in the Go value it is decoded into
    ([*json.UnmarshalTypeError], or the error of a field's own
    [UnmarshalJSON]). The result of the call is dropped by the adapter in
    both cases. *)
Inductive Error :=
| SyntaxError
| UnmarshalTypeError.

Definition Error_Error (e : Error) : string :=
  match e with
  | SyntaxError => "invalid character in JSON input"
  | UnmarshalTypeError => "json: cannot unmarshal value into Go value"
  end.

Definition isBlank (c : ascii) : bool :=
  let n := N_of_ascii c in
  ((n =? 32) || (n =? 9) || (n =? 10) || (n =? 13))%N.

Fixpoint skip_ws (s : string) : string :=
  match s with
  | String c s' => if isBlank c then skip_ws s' else s
  | EmptyString => EmptyString
  end.

Fixpoint strip_prefix (p s : string) : option string :=
  match p, s with
  | EmptyString, _ => Some s
  | String a p', String b s' => if Ascii.eqb a b then strip_prefix p' s' else None
  | String _ _, EmptyString => None
  end.

Definition isDigit (c : ascii) : bool :=
  let n := N_of_ascii c in ((48 <=? n) && (n <=? 57))%N.

Fixpoint span_digits (s : string) : string * string :=
  match s with
  | String c s' =>
      if isDigit c then let '(d, r) := span_digits s' in (String c d, r)
      else (EmptyString, s)
  | EmptyString => (EmptyString, EmptyString)
  end.

(** The number grammar: an optional minus sign, an integer part without a
    leading zero, an optional fraction and an optional exponent. *)
Definition scan_int (s : string) : option (string * string) :=
  match span_digits s with
  | (EmptyString, _) => None
  | (String "0" EmptyString, r) => Some ("0", r)
  | (String "0" _, _) => None
  | (d, r) => Some (d, r)
  end.

Definition scan_frac (s : string) : option (string * string) :=
  match s with
  | String "." s' =>
      match span_digits s' with
      | (EmptyString, _) => None
      | (d, r) => Some (String "." d, r)
      end
  | _ => Some (EmptyString, s)
  end.

Definition scan_exp (s : string) : option (string * string) :=
  match s with
  | String c s' =>
      if Ascii.eqb c "e" || Ascii.eqb c "E" then
        let '(sg, s'') :=
          match s' with
          | String "+" t => ("+", t)
          | String "-" t => ("-", t)
          | _ => ("", s')
          end in
        match span_digits s'' with
        | (EmptyString, _) => None
        | (d, r) => Some (String c (sg +:+ d), r)
        end
      else Some (EmptyString, s)
  | EmptyString => Some (EmptyString, s)
  end.

Definition scan_number (s : string) : option (string * string) :=
  let '(sg, s1) := match s with String "-" t => ("-", t) | _ => ("", s) end in
  '(i, s2) ← scan_int s1;
  '(f, s3) ← scan_frac s2;
  '(x, s4) ← scan_exp s3;
  Some (sg +:+ i +:+ f +:+ x, s4).

Definition hex_digit (c : ascii) : option N :=
  let n := N_of_ascii c in
  if ((48 <=? n) && (n <=? 57))%N then Some (n - 48)%N
  else if ((97 <=? n) && (n <=? 102))%N then Some (n - 87)%N
  else if ((65 <=? n) && (n <=? 70))%N then Some (n - 55)%N
  else None.

(** The UTF-8 encoding of a code point below [2^16]. *)
Definition utf8 (cp : N) : string :=
  let b (n : N) := ascii_of_N n in
  if (cp <? 128)%N then String (b cp) EmptyString
  else if (cp <? 2048)%N then
    String (b (192 + cp / 64)%N) (String (b (128 + cp mod 64)%N) EmptyString)
  else
    String (b (224 + cp / 4096)%N)
      (String (b (128 + (cp / 64) mod 64)%N) (String (b (128 + cp mod 64)%N) EmptyString)).

Definition unescape (c : ascii) : option ascii :=
  if Ascii.eqb c "034" then Some "034"%char
  else if Ascii.eqb c "\" then Some "\"%char
  else if Ascii.eqb c "/" then Some "/"%char
  else if Ascii.eqb c "b" then Some (ascii_of_N 8)
  else if Ascii.eqb c "f" then Some (ascii_of_N 12)
  else if Ascii.eqb c "n" then Some (ascii_of_N 10)
  else if Ascii.eqb c "r" then Some (ascii_of_N 13)
  else if Ascii.eqb c "t" then Some (ascii_of_N 9)
  else None.

(** The body of a string literal, after its opening quote: the decoded
    bytes and what follows the closing quote. Control characters must be
    escaped. An escape [\uXXXX] is decoded outside the surrogate range;
    the surrogate halves, which Go joins or replaces by U+FFFD, are outside
    the fragment modelled and end the scan. *)
Fixpoint scan_string (s : string) : option (string * string) :=
  match s with
  | EmptyString => None
  | String c s' =>
      if Ascii.eqb c "034" then Some (EmptyString, s')
      else if Ascii.eqb c "\" then
        match s' with
        | String "u" (String h1 (String h2 (String h3 (String h4 r)))) =>
            a ← hex_digit h1; b ← hex_digit h2; c ← hex_digit h3; d ← hex_digit h4;
            let cp := (((a * 16 + b) * 16 + c) * 16 + d)%N in
            if ((55296 <=? cp) && (cp <=? 57343))%N then None
            else '(t, r') ← scan_string r; Some (utf8 cp +:+ t, r')
        | String e r =>
            x ← unescape e;
            '(t, r') ← scan_string r; Some (String x t, r')
        | EmptyString => None
        end
      else if (N_of_ascii c <? 32)%N then None
      else '(t, r') ← scan_string s'; Some (String c t, r')
  end.

(** The recursive-descent reader; [fuel] bounds the number of nested calls,
    two per input byte at most. *)
Fixpoint parse_value (fuel : nat) (s : string) : option (value * string) :=
  match fuel with
  | O => None
  | S fuel =>
      match skip_ws s with
      | EmptyString => None
      | String c r as t =>
          if Ascii.eqb c "{" then
            match skip_ws r with
            | String "}" r' => Some (Object [], r')
            | _ => '(ms, r') ← parse_members fuel r; Some (Object ms, r')
            end
          else if Ascii.eqb c "[" then
            match skip_ws r with
            | String "]" r' => Some (Array [], r')
            | _ => '(vs, r') ← parse_elements fuel r; Some (Array vs, r')
            end
          else if Ascii.eqb c "034" then
            '(str, r') ← scan_string r; Some (Str str, r')
          else
            match strip_prefix "null" t, strip_prefix "true" t, strip_prefix "false" t with
            | Some r', _, _ => Some (Null, r')
            | _, Some r', _ => Some (Bool true, r')
            | _, _, Some r' => Some (Bool false, r')
            | _, _, _ => '(lit, r') ← scan_number t; Some (Number lit, r')
            end
      end
  end
with parse_elements (fuel : nat) (s : string) : option (list value * string) :=
  match fuel with
  | O => None
  | S fuel =>
      '(v, r) ← parse_value fuel s;
      match skip_ws r with
      | String "," r' => '(vs, r'') ← parse_elements fuel r'; Some (v :: vs, r'')
      | String "]" r' => Some ([v], r')
      | _ => None
      end
  end
with parse_members (fuel : nat) (s : string) : option (list (string * value) * string) :=
  match fuel with
  | O => None
  | S fuel =>
      match skip_ws s with
      | String "034" r =>
          '(k, r1) ← scan_string r;
          match skip_ws r1 with
          | String ":" r2 =>
              '(v, r3) ← parse_value fuel r2;
              match skip_ws r3 with
              | String "," r4 => '(ms, r5) ← parse_members fuel r4; Some ((k, v) :: ms, r5)
              | String "}" r4 => Some ([(k, v)], r4)
              | _ => None
              end
          | _ => None
          end
      | _ => None
      end
  end.

(** The syntax check every [json.Unmarshal] starts with: one value, then
    white space only. *)
Definition parse (b : string) : Error + value :=
  match parse_value (2 * String.length b + 2) b with
  | Some (v, r) => if bool_decide (skip_ws r = EmptyString) then inr v else inl SyntaxError
  | None => inl SyntaxError
  end.

End JSON.

#[global] Instance JSON_Error_eq_dec : EqDecision JSON.Error.
Proof. solve_decision. Defined.

(** ** The host's types ([pkg/fixedpoint], [pkg/types]) *)

Module fixedpoint.

(** Modelled from the spec: [fixedpoint.Value], the decimal type of prices
    and quantities, is not among the sources. A value is a whole number of
    units of [10^-8]; [NewFromString] reads a plain decimal literal and
    truncates it to eight places. *)
Definition Value : Type := Z.

Definition Zero : Value := 0.

Definition digits_to_Z (d : string) : Z :=
  fold_left (fun acc c => acc * 10 + (Z.of_N (N_of_ascii c) - 48)) (list_ascii_of_string d) 0.

Fixpoint pad8 (n : nat) (d : string) : string :=
  match n, d with
  | O, _ => EmptyString
  | S n', String c d' => String c (pad8 n' d')
  | S n', EmptyString => String "0" (pad8 n' EmptyString)
  end.

Definition NewFromString (s : string) : option Value :=
  let '(neg, s1) :=
    match s with
    | String "-" t => (true, t)
    | String "+" t => (false, t)
    | _ => (false, s)
    end in
  let '(i, s2) := JSON.span_digits s1 in
  let '(f, s3) :=
    match s2 with
    | String "." t => JSON.span_digits t
    | _ => (EmptyString, s2)
    end in
  if bool_decide (s3 = EmptyString) && negb (bool_decide (i +:+ f = EmptyString)) then
    let m := digits_to_Z i * 10 ^ 8 + digits_to_Z (pad8 8 f) in
    Some (if neg then - m else m)
  else None.

(** [Value.UnmarshalJSON]: a number or a string holding a decimal. *)
Definition UnmarshalJSON (old : Value) (v : JSON.value) : JSON.Error + Value :=
  match v with
  | JSON.Null => inr old
  | JSON.Number lit | JSON.Str lit =>
      match NewFromString lit with
      | Some x => inr x
      | None => inl JSON.UnmarshalTypeError
      end
  | _ => inl JSON.UnmarshalTypeError
  end.

End fixedpoint.

#[global] Instance Value_eq_dec : EqDecision fixedpoint.Value := Z.eq_dec.

Module types.

(** [types.ExchangeName] is a string type; [exchange_test.go] fixes the
    name of this venue. *)
Definition ExchangeName : Type := string.
Definition ExchangePolymarket : ExchangeName := "polymarket".

Module Market.
(** Modelled from the spec: the declaration of [types.Market] is not among
    the sources. The record has the venue field the adapter stamps and the
    eleven catalog fields the specification lists (external interfaces),
    under the names [defaultExampleMarkets] gives them. *)
Record t := mk {
  Exchange : ExchangeName;
  Symbol : string;
  LocalSymbol : string;
  BaseCurrency : string;
  QuoteCurrency : string;
  PricePrecision : Z;
  VolumePrecision : Z;
  QuotePrecision : Z;
  TickSize : fixedpoint.Value;
  StepSize : fixedpoint.Value;
  MinNotional : fixedpoint.Value;
  MinQuantity : fixedpoint.Value
}.

Definition zero : t := mk "" "" "" "" "" 0 0 0 0 0 0 0.

Definition with_Exchange (x : ExchangeName) (m : t) : t :=
  let '(mk _ sy ls bc qc pp vp qp ts ss mn mq) := m in mk x sy ls bc qc pp vp qp ts ss mn mq.
Definition with_Symbol (x : string) (m : t) : t :=
  let '(mk ex _ ls bc qc pp vp qp ts ss mn mq) := m in mk ex x ls bc qc pp vp qp ts ss mn mq.
Definition with_LocalSymbol (x : string) (m : t) : t :=
  let '(mk ex sy _ bc qc pp vp qp ts ss mn mq) := m in mk ex sy x bc qc pp vp qp ts ss mn mq.
Definition with_BaseCurrency (x : string) (m : t) : t :=
  let '(mk ex sy ls _ qc pp vp qp ts ss mn mq) := m in mk ex sy ls x qc pp vp qp ts ss mn mq.
Definition with_QuoteCurrency (x : string) (m : t) : t :=
  let '(mk ex sy ls bc _ pp vp qp ts ss mn mq) := m in mk ex sy ls bc x pp vp qp ts ss mn mq.
Definition with_PricePrecision (x : Z) (m : t) : t :=
  let '(mk ex sy ls bc qc _ vp qp ts ss mn mq) := m in mk ex sy ls bc qc x vp qp ts ss mn mq.
Definition with_VolumePrecision (x : Z) (m : t) : t :=
  let '(mk ex sy ls bc qc pp _ qp ts ss mn mq) := m in mk ex sy ls bc qc pp x qp ts ss mn mq.
Definition with_QuotePrecision (x : Z) (m : t) : t :=
  let '(mk ex sy ls bc qc pp vp _ ts ss mn mq) := m in mk ex sy ls bc qc pp vp x ts ss mn mq.
Definition with_TickSize (x : fixedpoint.Value) (m : t) : t :=
  let '(mk ex sy ls bc qc pp vp qp _ ss mn mq) := m in mk ex sy ls bc qc pp vp qp x ss mn mq.
Definition with_StepSize (x : fixedpoint.Value) (m : t) : t :=
  let '(mk ex sy ls bc qc pp vp qp ts _ mn mq) := m in mk ex sy ls bc qc pp vp qp ts x mn mq.
Definition with_MinNotional (x : fixedpoint.Value) (m : t) : t :=
  let '(mk ex sy ls bc qc pp vp qp ts ss _ mq) := m in mk ex sy ls bc qc pp vp qp ts ss x mq.
Definition with_MinQuantity (x : fixedpoint.Value) (m : t) : t :=
  let '(mk ex sy ls bc qc pp vp qp ts ss mn _) := m in mk ex sy ls bc qc pp vp qp ts ss mn x.
End Market.

(** [types.MarketMap] is [map[string]Market]; [None] is the nil map. *)
Definition MarketMap : Type := option (gmap string Market.t).

Definition len (mm : MarketMap) : nat :=
  match mm with
  | Some m => size m
  | None => O
  end.

(** Modelled from the spec: the declaration of [types.OrderStatus] is not
    among the sources; these are the two states of the specification's state
    machine, which are the two constants the adapter uses. *)
Inductive OrderStatus := OrderStatusNew | OrderStatusCanceled.

Module SubmitOrder.
(** Modelled from the spec: the declaration of [types.SubmitOrder] is not
    among the sources; the fields are those of the specification's data model
    (symbol, side, type, price, quantity, time in force, tag). *)
Record t := mk {
  Symbol : string;
  Side : string;
  Type_ : string;
  Quantity : fixedpoint.Value;
  Price : fixedpoint.Value;
  TimeInForce : string;
  Tag : string
}.
End SubmitOrder.

Module Order.
(** Modelled from the spec: the declaration of [types.Order] is not among the
    sources; the fields are those [SubmitOrder] fills in. *)
Record t := mk {
  SubmitOrder : SubmitOrder.t;
  Exchange : ExchangeName;
  OrderID : Z;
  Status : OrderStatus;
  ExecutedQuantity : fixedpoint.Value;
  IsWorking : bool;
  CreationTime : Z;
  UpdateTime : Z;
  OriginalStatus : string;
  IsFutures : bool;
  IsMargin : bool;
  IsIsolated : bool
}.

(** [o.Symbol]: the field of the embedded [SubmitOrder]. *)
Definition Symbol (o : t) : string := SubmitOrder.Symbol (SubmitOrder o).
End Order.

End types.

#[global] Instance Market_eq_dec : EqDecision types.Market.t.
Proof. solve_decision. Defined.
#[global] Instance OrderStatus_eq_dec : EqDecision types.OrderStatus.
Proof. solve_decision. Defined.
#[global] Instance SubmitOrder_eq_dec : EqDecision types.SubmitOrder.t.
Proof. solve_decision. Defined.
#[global] Instance Order_eq_dec : EqDecision types.Order.t.
Proof. solve_decision. Defined.

(** ** [json.Unmarshal] into the catalog types *)

Module Unmarshal.
Import types.

Definition lower (c : ascii) : ascii :=
  let n := N_of_ascii c in
  if ((65 <=? n) && (n <=? 90))%N then ascii_of_N (n + 32) else c.

(** Field names are matched without regard to (ASCII) case. *)
Fixpoint fold_key (k : string) : string :=
  match k with
  | String c k' => String (lower c) (fold_key k')
  | EmptyString => EmptyString
  end.

(** A JSON [null] leaves the Go value as it is. *)
Definition store_string (old : string) (v : JSON.value) : JSON.Error + string :=
  match v with
  | JSON.Null => inr old
  | JSON.Str s => inr s
  | _ => inl JSON.UnmarshalTypeError
  end.

Definition all_digits (d : string) : bool :=
  negb (bool_decide (d = EmptyString)) && forallb JSON.isDigit (list_ascii_of_string d).

(** [strconv.ParseInt(lit, 10, 64)] on a JSON number literal. *)
Definition ParseInt (lit : string) : option Z :=
  let '(neg, d) := match lit with String "-" t => (true, t) | _ => (false, lit) end in
  if all_digits d then
    let n := if neg then - fixedpoint.digits_to_Z d else fixedpoint.digits_to_Z d in
    if bool_decide (- 2 ^ 63 <= n < 2 ^ 63) then Some n else None
  else None.

Definition store_int (old : Z) (v : JSON.value) : JSON.Error + Z :=
  match v with
  | JSON.Null => inr old
  | JSON.Number lit =>
      match ParseInt lit with
      | Some n => inr n
      | None => inl JSON.UnmarshalTypeError
      end
  | _ => inl JSON.UnmarshalTypeError
  end.

(** One member of a JSON object stored into a [Market]; a key that names
    no field is skipped. *)
Definition store_field (m : Market.t) (kv : string * JSON.value) : JSON.Error + Market.t :=
  let '(k, v) := kv in
  let k := fold_key k in
  if String.eqb k "symbol" then
    sum_map id (fun x => Market.with_Symbol x m) (store_string (Market.Symbol m) v)
  else if String.eqb k "localsymbol" then
    sum_map id (fun x => Market.with_LocalSymbol x m) (store_string (Market.LocalSymbol m) v)
  else if String.eqb k "basecurrency" then
    sum_map id (fun x => Market.with_BaseCurrency x m) (store_string (Market.BaseCurrency m) v)
  else if String.eqb k "quotecurrency" then
    sum_map id (fun x => Market.with_QuoteCurrency x m) (store_string (Market.QuoteCurrency m) v)
  else if String.eqb k "priceprecision" then
    sum_map id (fun x => Market.with_PricePrecision x m) (store_int (Market.PricePrecision m) v)
  else if String.eqb k "volumeprecision" then
    sum_map id (fun x => Market.with_VolumePrecision x m) (store_int (Market.VolumePrecision m) v)
  else if String.eqb k "quoteprecision" then
    sum_map id (fun x => Market.with_QuotePrecision x m) (store_int (Market.QuotePrecision m) v)
  else if String.eqb k "ticksize" then
    sum_map id (fun x => Market.with_TickSize x m) (fixedpoint.UnmarshalJSON (Market.TickSize m) v)
  else if String.eqb k "stepsize" then
    sum_map id (fun x => Market.with_StepSize x m) (fixedpoint.UnmarshalJSON (Market.StepSize m) v)
  else if String.eqb k "minnotional" then
    sum_map id (fun x => Market.with_MinNotional x m) (fixedpoint.UnmarshalJSON (Market.MinNotional m) v)
  else if String.eqb k "minquantity" then
    sum_map id (fun x => Market.with_MinQuantity x m) (fixedpoint.UnmarshalJSON (Market.MinQuantity m) v)
  else inr m.

Definition store_fields (old : Market.t) (ms : list (string * JSON.value))
  : JSON.Error + Market.t :=
  fold_left (fun acc kv => match acc with inr m => store_field m kv | inl e => inl e end)
    ms (inr old).

Definition market (v : JSON.value) : JSON.Error + Market.t :=
  match v with
  | JSON.Null => inr Market.zero
  | JSON.Object ms => store_fields Market.zero ms
  | _ => inl JSON.UnmarshalTypeError
  end.

(** Into a nil [types.MarketMap]: an object gives a map with one entry per
    key, the last one when a key is repeated. *)
Definition store_entry (acc : JSON.Error + gmap string Market.t) (kv : string * JSON.value)
  : JSON.Error + gmap string Market.t :=
  match acc with
  | inr mm =>
      match market (snd kv) with
      | inr m => inr (<[fst kv := m]> mm)
      | inl e => inl e
      end
  | inl e => inl e
  end.

Definition value_MarketMap (v : JSON.value) : JSON.Error + MarketMap :=
  match v with
  | JSON.Null => inr None
  | JSON.Object ms => sum_map id Some (fold_left store_entry ms (inr ∅))
  | _ => inl JSON.UnmarshalTypeError
  end.

(** Into a nil [[]types.Market]. *)
Fixpoint markets (vs : list JSON.value) : JSON.Error + list Market.t :=
  match vs with
  | [] => inr []
  | v :: vs' =>
      match market v, markets vs' with
      | inr m, inr ms => inr (m :: ms)
      | inl e, _ => inl e
      | _, inl e => inl e
      end
  end.

Definition value_Markets (v : JSON.value) : JSON.Error + list Market.t :=
  match v with
  | JSON.Null => inr []
  | JSON.Array vs => markets vs
  | _ => inl JSON.UnmarshalTypeError
  end.

Definition MarketMap_of (b : string) : JSON.Error + MarketMap :=
  match JSON.parse b with
  | inr v => value_MarketMap v
  | inl e => inl e
  end.

Definition Markets_of (b : string) : JSON.Error + list Market.t :=
  match JSON.parse b with
  | inr v => value_Markets v
  | inl e => inl e
  end.

End Unmarshal.

(** ** The adapter: [package polymarket] *)

Module polymarket.
Import types.

Definition envMarketsFile : string := "POLYMARKET_MARKETS_FILE".
Definition envMarketsJSON : string := "POLYMARKET_MARKETS_JSON".
Definition envDryRun : string := "POLYMARKET_DRY_RUN".
Definition envBalanceUSDC : string := "POLYMARKET_BALANCE_USDC".

(** The errors of the adapter, one constructor for each [fmt.Errorf] of the
    source; [Error] is the message it formats and [Unwrap] the error it
    wraps with [%w]. *)
Inductive error :=
| ErrReadMarkets (err : Go.PathError)
| ErrDecodeMarkets (err : JSON.Error)
| ErrEmptySymbol
| ErrRealTrading.

Inductive cause :=
| OfReadFile (err : Go.PathError)
| OfUnmarshal (err : JSON.Error).

Definition Error (e : error) : string :=
  match e with
  | ErrReadMarkets err =>
      "polymarket: read " +:+ envMarketsFile +:+ " failed: " +:+ Go.PathError_Error err
  | ErrDecodeMarkets err =>
      "polymarket: decode markets json failed: " +:+ JSON.Error_Error err
  | ErrEmptySymbol => "polymarket: market symbol is empty in json"
  | ErrRealTrading =>
      "polymarket: real trading is not implemented yet; set " +:+ envDryRun
        +:+ "=true to use dry-run"
  end.


(** The error kinds of the specification. *)
Inductive ErrorKind := IOError | DecodeError | UnsupportedOperation.

Definition kind (e : error) : ErrorKind :=
  match e with
  | ErrReadMarkets _ => IOError
  | ErrDecodeMarkets _ | ErrEmptySymbol => DecodeError
  | ErrRealTrading => UnsupportedOperation
  end.

Record Exchange := mkExchange {
  key : string;
  secret : string;
  passphrase : string;
  markets : MarketMap;
  nextOrderID : Z;
  orders : gmap Z Order.t
}.

Definition New (key secret passphrase : string) : Exchange :=
  {| key := key; secret := secret; passphrase := passphrase;
     markets := None;
     orders := ∅;
     nextOrderID := 1 |}.

Definition with_markets (mm : MarketMap) (e : Exchange) : Exchange :=
  {| key := key e; secret := secret e; passphrase := passphrase e;
     markets := mm; nextOrderID := nextOrderID e; orders := orders e |}.

Definition with_ledger (next : Z) (os : gmap Z Order.t) (e : Exchange) : Exchange :=
  {| key := key e; secret := secret e; passphrase := passphrase e;
     markets := markets e; nextOrderID := next; orders := os |}.

(** *** The market catalog *)

Definition defaultExampleMarkets : gmap string Market.t :=
  <["PM_BTC_15M_UP_YES_USDC" :=
      {| Market.Exchange := "";
         Market.Symbol := "PM_BTC_15M_UP_YES_USDC";
         Market.LocalSymbol := "PM_BTC_15M_UP_YES_USDC";
         Market.BaseCurrency := "PM_BTC_15M_UP_YES";
         Market.QuoteCurrency := "USDC";
         Market.PricePrecision := 4;
         Market.VolumePrecision := 2;
         Market.QuotePrecision := 2;
         Market.TickSize := 10000;
         Market.StepSize := 1000000;
         Market.MinNotional := 100000000;
         Market.MinQuantity := 100000000 |}]>
  (<["PM_BTC_15M_UP_NO_USDC" :=
      {| Market.Exchange := "";
         Market.Symbol := "PM_BTC_15M_UP_NO_USDC";
         Market.LocalSymbol := "PM_BTC_15M_UP_NO_USDC";
         Market.BaseCurrency := "PM_BTC_15M_UP_NO";
         Market.QuoteCurrency := "USDC";
         Market.PricePrecision := 4;
         Market.VolumePrecision := 2;
         Market.QuotePrecision := 2;
         Market.TickSize := 10000;
         Market.StepSize := 1000000;
         Market.MinNotional := 100000000;
         Market.MinQuantity := 100000000 |}]> ∅).

(** The loop of [decodeMarketsJSON] over the decoded array: it returns at
    the first record without a symbol, and stores the others under their
    symbols. *)
Fixpoint index_markets (arr : list Market.t) (out : gmap string Market.t)
  : error + gmap string Market.t :=
  match arr with
  | [] => inr out
  | m :: arr' =>
      if bool_decide (Market.Symbol m = "") then inl ErrEmptySymbol
      else index_markets arr' (<[Market.Symbol m := m]> out)
  end.

Definition decodeMarketsJSON (b : string) : error + MarketMap :=
  let from_array : error + MarketMap :=
    match Unmarshal.Markets_of b with
    | inl err => inl (ErrDecodeMarkets err)
    | inr arr => sum_map id Some (index_markets arr ∅)
    end in
  match Unmarshal.MarketMap_of b with
  | inr mm => if bool_decide (0 < len mm)%nat then inr mm else from_array
  | inl _ => from_array
  end.

Definition loadMarketsFromEnv (env : gmap string string) (fs : gmap string Go.file)
  : error + MarketMap :=
  let path := Go.TrimSpace (Go.Getenv env envMarketsFile) in
  if negb (bool_decide (path = "")) then
    match Go.ReadFile fs path with
    | inl err => inl (ErrReadMarkets err)
    | inr b => decodeMarketsJSON b
    end
  else
    let raw := Go.TrimSpace (Go.Getenv env envMarketsJSON) in
    if negb (bool_decide (raw = "")) then decodeMarketsJSON raw
    else inr None.

(** The body of the loop that fills the [Exchange] field. *)
Definition stamp (symbol : string) (m : Market.t) : Market.t :=
  let m := Market.with_Exchange ExchangePolymarket m in
  if bool_decide (Market.Symbol m = "") then Market.with_Symbol symbol m else m.

(** [for symbol, m := range markets { ...; markets[symbol] = m }]: every
    key of the map is visited once and written back. *)
Definition stamp_all (mm : gmap string Market.t) : gmap string Market.t :=
  map_fold (fun symbol m acc => <[symbol := stamp symbol m]> acc) mm mm.

Definition QueryMarkets (env : gmap string string) (fs : gmap string Go.file) (e : Exchange)
  : (error + MarketMap) * Exchange :=
  if bool_decide (markets e ≠ None) && bool_decide (0 < len (markets e))%nat then
    (inr (markets e), e)
  else
    match loadMarketsFromEnv env fs with
    | inl err => (inl err, e)
    | inr loaded =>
        let mm :=
          match loaded with
          | Some mm => if bool_decide (size mm = 0%nat) then defaultExampleMarkets else mm
          | None => defaultExampleMarkets
          end in
        let e' := with_markets (Some (stamp_all mm)) e in
        (inr (markets e'), e')
    end.

(** *** The submission gate and the order ledger *)

Definition dryRun (env : gmap string string) : bool :=
  let v := Go.TrimSpace (Go.Getenv env envDryRun) in
  if negb (bool_decide (v = "")) then
    match Go.ParseBool v with
    | Some b => b
    | None => true
    end
  else true.

Definition SubmitOrder (env : gmap string string) (now : Z) (order : SubmitOrder.t)
    (e : Exchange) : (error + Order.t) * Exchange :=
  if negb (dryRun env) then (inl ErrRealTrading, e)
  else
    let oid := nextOrderID e in
    let created :=
      {| Order.SubmitOrder := order;
         Order.Exchange := ExchangePolymarket;
         Order.OrderID := oid;
         Order.Status := OrderStatusNew;
         Order.ExecutedQuantity := fixedpoint.Zero;
         Order.IsWorking := true;
         Order.CreationTime := now;
         Order.UpdateTime := now;
         Order.OriginalStatus := "NEW";
         Order.IsFutures := false;
         Order.IsMargin := false;
         Order.IsIsolated := false |} in
    (inr created, with_ledger (Go.uint64_succ oid) (<[oid := created]> (orders e)) e).

(** The body of the loop of [QueryOpenOrders], with its two [continue]s. *)
Definition collect_open (symbol : string) (acc : list Order.t) (o : Order.t) : list Order.t :=
  if negb (Order.IsWorking o) then acc
  else if negb (bool_decide (symbol = "")) && negb (bool_decide (Order.Symbol o = symbol))
  then acc
  else acc ++ [o].

(** Go visits the entries of a map in an order it does not fix; the model
    takes the order of [map_to_list]. *)
Definition QueryOpenOrders (symbol : string) (e : Exchange) : (list Order.t * option error) :=
  (fold_left (collect_open symbol) (snd <$> map_to_list (orders e)) [], None).

Definition canceled (now : Z) (existing : Order.t) : Order.t :=
  {| Order.SubmitOrder := Order.SubmitOrder existing;
     Order.Exchange := Order.Exchange existing;
     Order.OrderID := Order.OrderID existing;
     Order.Status := OrderStatusCanceled;
     Order.ExecutedQuantity := Order.ExecutedQuantity existing;
     Order.IsWorking := false;
     Order.CreationTime := Order.CreationTime existing;
     Order.UpdateTime := now;
     Order.OriginalStatus := "CANCELED";
     Order.IsFutures := Order.IsFutures existing;
     Order.IsMargin := Order.IsMargin existing;
     Order.IsIsolated := Order.IsIsolated existing |}.

Definition cancel_one (now : Z) (os : gmap Z Order.t) (o : Order.t) : gmap Z Order.t :=
  match os !! Order.OrderID o with
  | Some existing => <[Order.OrderID o := canceled now existing]> os
  | None => os
  end.

Definition CancelOrders (now : Z) (refs : list Order.t) (e : Exchange)
  : option error * Exchange :=
  (None, with_ledger (nextOrderID e) (fold_left (cancel_one now) refs (orders e)) e).

End polymarket.

(** ** Histories: what the host does with one [Exchange] *)

Module History.
Import types polymarket.

Inductive call :=
| CallQueryMarkets (env : gmap string string) (fs : gmap string Go.file)
| CallSubmitOrder (env : gmap string string) (now : Z) (order : SubmitOrder.t)
| CallQueryOpenOrders (symbol : string)
| CallCancelOrders (now : Z) (refs : list Order.t).

Inductive reply :=
| ReplyQueryMarkets (r : error + MarketMap)
| ReplySubmitOrder (r : error + Order.t)
| ReplyQueryOpenOrders (r : list Order.t * option error)
| ReplyCancelOrders (r : option error).

Definition serve (c : call) (e : Exchange) : reply * Exchange :=
  match c with
  | CallQueryMarkets env fs =>
      let '(r, e') := QueryMarkets env fs e in (ReplyQueryMarkets r, e')
  | CallSubmitOrder env now order =>
      let '(r, e') := SubmitOrder env now order e in (ReplySubmitOrder r, e')
  | CallQueryOpenOrders symbol => (ReplyQueryOpenOrders (QueryOpenOrders symbol e), e)
  | CallCancelOrders now refs =>
      let '(r, e') := CancelOrders now refs e in (ReplyCancelOrders r, e')
  end.

Fixpoint run (cs : list call) (e : Exchange) : list reply * Exchange :=
  match cs with
  | [] => ([], e)
  | c :: cs' =>
      let '(r, e1) := serve c e in
      let '(rs, e2) := run cs' e1 in
      (r :: rs, e2)
  end.

(** The identifier a successful [SubmitOrder] returned. *)
Definition issued_by (r : reply) : option Z :=
  match r with
  | ReplySubmitOrder (inr created) => Some (Order.OrderID created)
  | _ => None
  end.

Definition issued (rs : list reply) : list Z := omap issued_by rs.

(** The states a process goes through. *)
Inductive reachable : Exchange → Prop :=
| reachable_New key secret passphrase : reachable (New key secret passphrase)
| reachable_serve c e : reachable e → reachable (serve c e).2.

(** Every record of the ledger is stored under its own identifier. *)
Definition keyed (os : gmap Z Order.t) : Prop :=
  ∀ k o, os !! k = Some o → Order.OrderID o = k.

(** What [QueryOpenOrders] lets through. *)
Definition open_for (symbol : string) (o : Order.t) : Prop :=
  Order.IsWorking o = true ∧ (symbol = "" ∨ Order.Symbol o = symbol).

#[global] Instance open_for_dec symbol o : Decision (open_for symbol o).
Proof. unfold open_for. apply _. Defined.


(** A short history used to instantiate the theorems: three dry-run
    submissions, a refused live one, and a cancellation. *)
Definition live_env : gmap string string := {[ envDryRun := " false " ]}.

Definition buy (symbol : string) : SubmitOrder.t :=
  SubmitOrder.mk symbol "BUY" "LIMIT" 500000000 42000000 "GTC" "".

Definition ref (id : Z) : Order.t :=
  Order.mk (buy "") "" id OrderStatusNew 0 false 0 0 "" false false false.

Definition sample_history : list call :=
  [ CallSubmitOrder ∅ 100 (buy "PM_BTC_15M_UP_YES_USDC");
    CallSubmitOrder live_env 101 (buy "PM_BTC_15M_UP_YES_USDC");
    CallSubmitOrder ∅ 102 (buy "PM_BTC_15M_UP_NO_USDC");
    CallCancelOrders 103 [ref 1; ref 9];
    CallSubmitOrder ∅ 104 (buy "PM_BTC_15M_UP_YES_USDC") ].

End History.

(** ** Catalog documents used to instantiate the theorems *)

Module Samples.
Import types polymarket.

(** A JSON string literal: the text between two quotes (code 34). *)
Definition q (s : string) : string := String "034" (s +:+ String "034" EmptyString).

(** An object with one entry, Y, whose record has an empty symbol and the
    base currency Y. *)
Definition catalog_Y : string :=
  "{" +:+ q "Y" +:+ ":{" +:+ q "symbol" +:+ ":" +:+ q "" +:+ ","
      +:+ q "baseCurrency" +:+ ":" +:+ q "Y" +:+ "}}".

(** An array with the one record X, base currency X, quoted in USDC. *)
Definition catalog_X : string :=
  "[{" +:+ q "symbol" +:+ ":" +:+ q "X" +:+ "," +:+ q "baseCurrency" +:+ ":" +:+ q "X"
       +:+ "," +:+ q "quoteCurrency" +:+ ":" +:+ q "USDC" +:+ "}]".

(** Two arrays whose first record without a symbol differs, in its position
    and in its fields. *)
Definition catalog_unnamed_A : string :=
  "[{" +:+ q "baseCurrency" +:+ ":" +:+ q "A" +:+ "}]".

Definition catalog_unnamed_B : string :=
  "[{" +:+ q "symbol" +:+ ":" +:+ q "X" +:+ "},{" +:+ q "baseCurrency" +:+ ":" +:+ q "B"
       +:+ "}]".

Definition market_Y : Market.t := Market.with_BaseCurrency "Y" Market.zero.

Definition market_X : Market.t :=
  Market.with_QuoteCurrency "USDC"
    (Market.with_BaseCurrency "X" (Market.with_Symbol "X" Market.zero)).

(** The first record of a decoded array that has no symbol, with its
    position. *)
Definition first_unnamed (arr : list Market.t) : option (nat * Market.t) :=
  list_find (λ m, Market.Symbol m = "") arr.

(** The catalog [QueryMarkets] builds from [catalog_X]. *)
Definition cached_X : MarketMap :=
  Some {[ "X" := Market.with_Exchange ExchangePolymarket market_X ]}.

End Samples.

(** ** Invariants of the state *)

Module Invariant.
Import types polymarket.

(** A record as the ledger makes and keeps it: stored under its identifier,
    of this venue, with nothing executed, and in one of two states, the
    working flag and the venue's status text following the status. *)
Definition recorded (k : Z) (o : Order.t) : Prop :=
  Order.OrderID o = k
  ∧ Order.Exchange o = ExchangePolymarket
  ∧ Order.ExecutedQuantity o = fixedpoint.Zero
  ∧ Order.IsFutures o = false ∧ Order.IsMargin o = false ∧ Order.IsIsolated o = false
  ∧ ((Order.Status o = OrderStatusNew ∧ Order.IsWorking o = true
      ∧ Order.OriginalStatus o = "NEW")
     ∨ (Order.Status o = OrderStatusCanceled ∧ Order.IsWorking o = false
        ∧ Order.OriginalStatus o = "CANCELED")).

(** A catalog as [QueryMarkets] leaves it: every record names this venue, and
    a record without a symbol can only sit under the empty key. *)
Definition normalised (mm : gmap string Market.t) : Prop :=
  ∀ k m, mm !! k = Some m →
         Market.Exchange m = ExchangePolymarket ∧ (Market.Symbol m = "" → k = "").

(** The identifiers a list of references names. *)
Definition named (refs : list Order.t) : list Z := Order.OrderID <$> refs.

End Invariant.

(** ** The ticker queries of the adapter *)

Module tickers.
Import types polymarket.

(** Modelled from the spec: the declaration of [types.Ticker] is not among
    the sources; a ticker is a time and seven prices and volumes, of which
    the adapter sets the time only. *)
Record Ticker := mkTicker {
  Time : Z;
  Volume : fixedpoint.Value;
  Last : fixedpoint.Value;
  Open : fixedpoint.Value;
  High : fixedpoint.Value;
  Low : fixedpoint.Value;
  Buy : fixedpoint.Value;
  Sell : fixedpoint.Value
}.

(** [QueryTicker] reads the clock and nothing else: neither the symbol nor
    the [Exchange]. *)
Definition QueryTicker (now : Z) (symbol : string) : error + Ticker :=
  inr {| Time := now; Volume := 0; Last := 0; Open := 0; High := 0; Low := 0;
         Buy := 0; Sell := 0 |}.

(** The loop of [QueryTickers]; [clock i] is what [time.Now] answers to the
    call for the [i]-th symbol. *)
Fixpoint tickers_from (clock : nat → Z) (i : nat) (symbol : list string)
    (out : gmap string Ticker) : error + gmap string Ticker :=
  match symbol with
  | [] => inr out
  | s :: rest =>
      match QueryTicker (clock i) s with
      | inl err => inl err
      | inr t => tickers_from clock (S i) rest (<[s := t]> out)
      end
  end.

Definition QueryTickers (clock : nat → Z) (symbol : list string)
  : error + gmap string Ticker :=
  tickers_from clock 0 symbol ∅.

End tickers.

(** ** The example strategy: [package polymarketbtcupdown] *)

Module polymarketbtcupdown.
Import types.

Definition ID : string := "polymarket-btc15m-updown".

(** Constants of [pkg/types] and [pkg/fixedpoint] the strategy names. Their
    declarations are not among the sources; the interval is the one the
    comment on the [Interval] field gives, and the two numbers are 0.5 and 5
    in units of [10^-8]. *)
Definition Interval15m : string := "15m".
Definition SideTypeBuy : string := "BUY".
Definition OrderTypeLimit : string := "LIMIT".
Definition TimeInForceGTC : string := "GTC".
Definition half : fixedpoint.Value := 50000000.
Definition five : fixedpoint.Value := 500000000.

Record Strategy := mkStrategy {
  BinanceSession : string;
  PolymarketSession : string;
  SourceSymbol : string;
  Interval : string;
  YesSymbol : string;
  NoSymbol : string;
  EntryPrice : fixedpoint.Value;
  QuoteAmount : fixedpoint.Value
}.

Definition or_default (x d : string) : string := if bool_decide (x = "") then d else x.

Definition or_default_value (x d : fixedpoint.Value) : fixedpoint.Value :=
  if bool_decide (x = 0) then d else x.

(** [Defaults] always returns nil; the model returns the strategy it leaves. *)
Definition Defaults (s : Strategy) : Strategy :=
  {| BinanceSession := or_default (BinanceSession s) "binance";
     PolymarketSession := or_default (PolymarketSession s) "polymarket";
     SourceSymbol := or_default (SourceSymbol s) "BTCUSDT";
     Interval := or_default (Interval s) Interval15m;
     YesSymbol := or_default (YesSymbol s) "PM_BTC_15M_UP_YES_USDC";
     NoSymbol := or_default (NoSymbol s) "PM_BTC_15M_UP_NO_USDC";
     EntryPrice := or_default_value (EntryPrice s) half;
     QuoteAmount := or_default_value (QuoteAmount s) five |}.

(** The errors of the strategy: those of [Validate], with their messages,
    and the two of [CrossRun], with the session name they quote. *)
Inductive error :=
| Invalid (msg : string)
| BinanceSessionNotFound (name : string)
| PolymarketSessionNotFound (name : string).

(** [Validate]: the error, or [None] for nil. *)
Definition Validate (s : Strategy) : option error :=
  if bool_decide (BinanceSession s = "") || bool_decide (PolymarketSession s = "") then
    Some (Invalid "binanceSession/polymarketSession is required")
  else if bool_decide (SourceSymbol s = "") then Some (Invalid "sourceSymbol is required")
  else if bool_decide (Interval s = "") then Some (Invalid "interval is required")
  else if bool_decide (YesSymbol s = "") || bool_decide (NoSymbol s = "") then
    Some (Invalid "yesSymbol/noSymbol is required")
  else if bool_decide (Z.sgn (EntryPrice s) ≤ 0) then
    Some (Invalid "entryPrice must be positive")
  else if bool_decide (Z.sgn (QuoteAmount s) ≤ 0) then
    Some (Invalid "quoteAmount must be positive")
  else None.

(** Modelled from the spec: the declaration of [types.KLine] is not among the
    sources; these are the four fields the strategy reads. *)
Record KLine := mkKLine {
  Symbol : string;
  KInterval : string;
  Open : fixedpoint.Value;
  Close : fixedpoint.Value
}.

(** The handler [CrossRun] registers for closed candles: the order it hands
    to the router for the Polymarket session, or [None] when it returns
    without one. [div] stands for [fixedpoint.Value.Div], which is not among
    the sources. *)
Definition onKLineClosed (div : fixedpoint.Value → fixedpoint.Value → fixedpoint.Value)
    (s : Strategy) (kline : KLine) : option SubmitOrder.t :=
  if negb (bool_decide (Symbol kline = SourceSymbol s))
     || negb (bool_decide (KInterval kline = Interval s)) then None
  else
    let up := bool_decide (Close kline > Open kline) in
    let targetSymbol := if up then YesSymbol s else NoSymbol s in
    let quantity := div (QuoteAmount s) (EntryPrice s) in
    Some {| SubmitOrder.Symbol := targetSymbol;
            SubmitOrder.Side := SideTypeBuy;
            SubmitOrder.Type_ := OrderTypeLimit;
            SubmitOrder.Price := EntryPrice s;
            SubmitOrder.Quantity := quantity;
            SubmitOrder.TimeInForce := TimeInForceGTC;
            SubmitOrder.Tag := ID |}.

(** [CrossRun]: the strategy as the call leaves it ([Defaults] works in
    place) and the error; when the error is nil, the handler
    [onKLineClosed] of that strategy is registered on the market-data stream
    of the Binance session. Of the sessions only the names matter. *)
Definition CrossRun (s : Strategy) (sessions : gset string) : Strategy * option error :=
  let s := Defaults s in
  match Validate s with
  | Some err => (s, Some err)
  | None =>
      if negb (bool_decide (BinanceSession s ∈ sessions)) then
        (s, Some (BinanceSessionNotFound (BinanceSession s)))
      else if negb (bool_decide (PolymarketSession s ∈ sessions)) then
        (s, Some (PolymarketSessionNotFound (PolymarketSession s)))
      else (s, None)
  end.

End polymarketbtcupdown.

(** ** The model on concrete inputs *)

Section Checks.
Import types polymarket History Samples.

Example TrimSpace_flag : Go.TrimSpace (String "009" " false  ") = "false".
Proof. reflexivity. Qed.

Example TrimSpace_inner : Go.TrimSpace " a b " = "a b".
Proof. reflexivity. Qed.

Example ParseBool_forms :
  Go.ParseBool <$> ["1"; "True"; "F"; "false"; "yes"; "TrUe"; ""]
  = [Some true; Some true; Some false; Some false; None; None; None].
Proof. reflexivity. Qed.

Example uint64_succ_wraps : Go.uint64_succ (2 ^ 64 - 1) = 0.
Proof. reflexivity. Qed.

Example parse_catalog_Y :
  JSON.parse catalog_Y
  = inr (JSON.Object
           [("Y", JSON.Object [("symbol", JSON.Str ""); ("baseCurrency", JSON.Str "Y")])]).
Proof. vm_compute. reflexivity. Qed.

Example parse_trailing_comma : JSON.parse "[1,]" = inl JSON.SyntaxError.
Proof. vm_compute. reflexivity. Qed.

Example parse_number_forms :
  JSON.parse " [ -1.50e+3 , 0, true , null ] "
  = inr (JSON.Array [JSON.Number "-1.50e+3"; JSON.Number "0"; JSON.Bool true; JSON.Null]).
Proof. vm_compute. reflexivity. Qed.

Example decode_catalog_X : decodeMarketsJSON catalog_X = inr (Some {[ "X" := market_X ]}).
Proof. vm_compute. reflexivity. Qed.

Example decode_empty_object :
  decodeMarketsJSON "{}" = inl (ErrDecodeMarkets JSON.UnmarshalTypeError).
Proof. vm_compute. reflexivity. Qed.

Example decode_null : decodeMarketsJSON "null" = inr (Some ∅).
Proof. vm_compute. reflexivity. Qed.

Example QueryMarkets_default :
  (QueryMarkets ∅ ∅ (New "k" "s" "p")).1
  = inr (Some (Market.with_Exchange ExchangePolymarket <$> defaultExampleMarkets)).
Proof. vm_compute. reflexivity. Qed.

Example sample_history_issued :
  issued (run sample_history (New "k" "s" "p")).1 = [1; 2; 3].
Proof. vm_compute. reflexivity. Qed.

Example sample_history_open :
  Order.OrderID <$> (QueryOpenOrders "" (run sample_history (New "k" "s" "p")).2).1
    ≡ₚ [2; 3]
  ∧ Order.OrderID
      <$> (QueryOpenOrders "PM_BTC_15M_UP_YES_USDC"
             (run sample_history (New "k" "s" "p")).2).1 = [3].
Proof.
  split; [|vm_compute; reflexivity].
  replace (Order.OrderID
             <$> (QueryOpenOrders "" (run sample_history (New "k" "s" "p")).2).1)
    with [3; 2] by (vm_compute; reflexivity).
  apply perm_swap.
Qed.

End Checks.

(** ** Properties of the order ledger and the submission gate *)

Section Ledger.
Import types polymarket History.
Implicit Types (e : Exchange) (os : gmap Z Order.t) (o : Order.t).
Implicit Types (env : gmap string string) (refs : list Order.t).

Lemma with_ledger_same e : with_ledger (nextOrderID e) (orders e) e = e.
Proof. by destruct e. Qed.

Lemma collect_open_filter symbol (l acc : list Order.t) :
  fold_left (collect_open symbol) l acc = acc ++ filter (open_for symbol) l.
Proof.
  revert acc. induction l as [|o l IH]; intros acc; simpl.
  - by rewrite app_nil_r.
  - rewrite IH. unfold collect_open, open_for.
    rewrite filter_cons. destruct (decide _) as [[Hw Hs]|Hn].
    + rewrite Hw. simpl.
      destruct Hs as [->| <-]; repeat (case_bool_decide; simpl; try done);
        by rewrite <- app_assoc.
    + destruct (Order.IsWorking o) eqn:Hw; simpl; [|done].
      repeat (case_bool_decide; simpl); try done; exfalso; apply Hn; auto.
Qed.

Lemma QueryOpenOrders_filter symbol e :
  (QueryOpenOrders symbol e).1 = filter (open_for symbol) (snd <$> map_to_list (orders e)).
Proof. unfold QueryOpenOrders. simpl. by rewrite collect_open_filter. Qed.

Lemma elem_of_QueryOpenOrders symbol e o :
  o ∈ (QueryOpenOrders symbol e).1 ↔
  open_for symbol o ∧ ∃ k, orders e !! k = Some o.
Proof.
  rewrite QueryOpenOrders_filter, list_elem_of_filter, list_elem_of_fmap.
  split.
  - intros [Ho [[k o'] [-> Hin]]]. split; [done|].
    exists k. by apply elem_of_map_to_list.
  - intros [Ho [k Hk]]. split; [done|].
    exists (k, o). split; [done|]. by apply elem_of_map_to_list.
Qed.

(** *** The ledger invariant *)

Lemma keyed_insert os k o :
  keyed os → Order.OrderID o = k → keyed (<[k:=o]> os).
Proof.
  intros Hos Hk k' o'. rewrite lookup_insert. case_decide; [|by apply Hos].
  intros [= <-]. congruence.
Qed.

Lemma canceled_idemp now o : canceled now (canceled now o) = canceled now o.
Proof. done. Qed.

Lemma cancel_one_lookup now os r k :
  cancel_one now os r !! k =
  if decide (k = Order.OrderID r) then canceled now <$> os !! k else os !! k.
Proof.
  unfold cancel_one. case_decide as Hk.
  - subst k. destruct (os !! Order.OrderID r) as [x|] eqn:Hx.
    + by rewrite lookup_insert_eq.
    + by rewrite Hx.
  - destruct (os !! Order.OrderID r); [|done]. by rewrite lookup_insert_ne.
Qed.

Lemma cancel_all_lookup now refs os k :
  fold_left (cancel_one now) refs os !! k =
  if decide (k ∈ Order.OrderID <$> refs) then canceled now <$> os !! k else os !! k.
Proof.
  revert os. induction refs as [|r refs IH]; intros os.
  - done.
  - cbn [fold_left]. rewrite IH, cancel_one_lookup, fmap_cons.
    destruct (decide (k = Order.OrderID r)) as [Hk|Hk];
      destruct (decide (k ∈ Order.OrderID <$> refs)) as [Hin|Hin].
    + rewrite decide_True by (apply elem_of_cons; tauto).
      destruct (os !! k); [|done]. simpl. by rewrite canceled_idemp.
    + by rewrite decide_True by (apply elem_of_cons; tauto).
    + by rewrite decide_True by (apply elem_of_cons; tauto).
    + by rewrite decide_False by (rewrite elem_of_cons; tauto).
Qed.

Lemma keyed_cancel now refs os : keyed os → keyed (fold_left (cancel_one now) refs os).
Proof.
  intros Hos k o. rewrite cancel_all_lookup.
  case_decide; [|by apply Hos].
  destruct (os !! k) as [x|] eqn:Hx; [|done].
  intros [= <-]. simpl. by apply Hos.
Qed.

(** *** The two ways of [SubmitOrder] *)

Lemma SubmitOrder_live env now order e :
  dryRun env = false → SubmitOrder env now order e = (inl ErrRealTrading, e).
Proof. intros H. unfold SubmitOrder. by rewrite H. Qed.

Lemma SubmitOrder_dry env now order e :
  dryRun env = true →
  ∃ created,
    SubmitOrder env now order e =
      (inr created,
       with_ledger (Go.uint64_succ (nextOrderID e))
         (<[nextOrderID e := created]> (orders e)) e)
    ∧ Order.OrderID created = nextOrderID e
    ∧ Order.SubmitOrder created = order
    ∧ Order.Status created = OrderStatusNew
    ∧ Order.IsWorking created = true
    ∧ Order.ExecutedQuantity created = fixedpoint.Zero.
Proof.
  intros H. unfold SubmitOrder. rewrite H. simpl.
  eexists. split; [reflexivity|]. done.
Qed.

Lemma QueryMarkets_ledger env fs e :
  nextOrderID (QueryMarkets env fs e).2 = nextOrderID e
  ∧ orders (QueryMarkets env fs e).2 = orders e.
Proof.
  unfold QueryMarkets. case_match; [done|].
  destruct (loadMarketsFromEnv env fs); done.
Qed.

Lemma serve_keyed c e : keyed (orders e) → keyed (orders (serve c e).2).
Proof.
  intros He. destruct c as [env fs|env now order|symbol|now refs]; simpl.
  - destruct (QueryMarkets env fs e) as [r e'] eqn:Hq. simpl.
    replace e' with (QueryMarkets env fs e).2 by by rewrite Hq.
    by rewrite (proj2 (QueryMarkets_ledger env fs e)).
  - destruct (dryRun env) eqn:Hd.
    + destruct (SubmitOrder_dry env now order e Hd) as (created & -> & Hid & _).
      simpl. by apply keyed_insert.
    + by rewrite SubmitOrder_live.
  - done.
  - by apply keyed_cancel.
Qed.

Lemma reachable_keyed e : reachable e → keyed (orders e).
Proof.
  induction 1 as [k s p|c e _ IH].
  - intros i o. simpl. by rewrite lookup_empty.
  - by apply serve_keyed.
Qed.

(** *** Submission *)

Lemma open_after_insert os k created :
  keyed os → Order.OrderID created = k → Order.IsWorking created = true →
  filter (λ o, Order.OrderID o = k)
    (filter (open_for "") (snd <$> map_to_list (<[k:=created]> os))) = [created].
Proof.
  intros Hos Hid Hw. apply Permutation_singleton_r.
  rewrite <- insert_delete_eq.
  rewrite map_to_list_insert by apply lookup_delete_eq.
  rewrite fmap_cons. cbn [snd].
  rewrite filter_cons_True by (split; [done|by left]).
  rewrite filter_cons_True by done.
  assert (filter (λ o, Order.OrderID o = k)
            (filter (open_for "") (snd <$> map_to_list (delete k os))) = []) as ->; [|done].
  apply elem_of_nil_inv. intros o.
  rewrite !list_elem_of_filter, list_elem_of_fmap.
  intros (Hk & _ & [i o'] & -> & Hin).
  apply elem_of_map_to_list in Hin. simpl in Hk.
  rewrite lookup_delete_Some in Hin. destruct Hin as [Hne Hin].
  apply Hos in Hin. congruence.
Qed.

Lemma filter_eq_of_filter_id (l : list Order.t) k created :
  Order.OrderID created = k →
  filter (λ o, Order.OrderID o = k) l = [created] →
  filter (λ o, o = created) l = [created].
Proof.
  intros Hid Hl.
  assert (filter (λ o, o = created) l
          = filter (λ o, o = created) (filter (λ o, Order.OrderID o = k) l)) as ->.
  { rewrite list_filter_filter. apply list_filter_iff. intros o. split.
    - intros ->. done.
    - tauto. }
  rewrite Hl. by rewrite filter_cons_True.
Qed.

(** C1. A [SubmitOrder] in dry-run mode returns an order with status [new],
    working, nothing executed; right after the call the open orders queried
    without a symbol filter hold that order exactly once (it is the only
    one with its identifier). *)
Theorem SubmitOrder_dry_run_opens_the_order env now order e :
  reachable e → dryRun env = true →
  ∃ created e',
    SubmitOrder env now order e = (inr created, e')
    ∧ Order.Status created = OrderStatusNew
    ∧ Order.IsWorking created = true
    ∧ Order.ExecutedQuantity created = fixedpoint.Zero
    ∧ (QueryOpenOrders "" e').2 = None
    ∧ filter (λ o, o = created) (QueryOpenOrders "" e').1 = [created]
    ∧ filter (λ o, Order.OrderID o = Order.OrderID created) (QueryOpenOrders "" e').1
      = [created].
Proof.
  intros He Hd.
  destruct (SubmitOrder_dry env now order e Hd) as (created & Hs & Hid & _ & Hst & Hw & Hx).
  exists created. eexists. split; [exact Hs|].
  repeat (split; [done|]).
  rewrite QueryOpenOrders_filter. cbn [orders with_ledger].
  pose proof (open_after_insert (orders e) (nextOrderID e) created
                (reachable_keyed e He) Hid Hw) as Hopen.
  rewrite Hid. split; [|exact Hopen].
  by apply (filter_eq_of_filter_id _ (nextOrderID e)).
Qed.

Lemma SubmitOrder_dry_run_opens_the_order_witness :
  ∃ created e',
    SubmitOrder ∅ 1700000000 (SubmitOrder.mk "PM_BTC_15M_UP_YES_USDC" "BUY" "LIMIT" 500000000 42000000 "GTC" "")
      (New "k" "s" "p") = (inr created, e')
    ∧ Order.Status created = OrderStatusNew
    ∧ Order.IsWorking created = true
    ∧ Order.ExecutedQuantity created = fixedpoint.Zero
    ∧ (QueryOpenOrders "" e').2 = None
    ∧ filter (λ o, o = created) (QueryOpenOrders "" e').1 = [created]
    ∧ filter (λ o, Order.OrderID o = Order.OrderID created) (QueryOpenOrders "" e').1
      = [created].
Proof.
  apply SubmitOrder_dry_run_opens_the_order.
  - apply reachable_New.
  - reflexivity.
Defined.

(** *** Identifiers *)

Lemma serve_counter c e :
  match issued_by (serve c e).1 with
  | Some id =>
      id = nextOrderID e ∧ nextOrderID (serve c e).2 = Go.uint64_succ (nextOrderID e)
  | None => nextOrderID (serve c e).2 = nextOrderID e
  end.
Proof.
  destruct c as [env fs|env now order|symbol|now refs]; simpl.
  - destruct (QueryMarkets env fs e) as [r e'] eqn:Hq. simpl.
    replace e' with (QueryMarkets env fs e).2 by by rewrite Hq.
    apply QueryMarkets_ledger.
  - destruct (dryRun env) eqn:Hd.
    + destruct (SubmitOrder_dry env now order e Hd) as (created & -> & Hid & _).
      simpl. by rewrite Hid.
    + by rewrite SubmitOrder_live.
  - done.
  - done.
Qed.

Lemma run_cons c cs e :
  run (c :: cs) e = ((serve c e).1 :: (run cs (serve c e).2).1, (run cs (serve c e).2).2).
Proof. simpl. destruct (serve c e) as [r e1]. simpl. by destruct (run cs e1). Qed.

Lemma issued_cons r rs :
  issued (r :: rs) = match issued_by r with Some id => id :: issued rs | None => issued rs end.
Proof. unfold issued. simpl. by destruct (issued_by r). Qed.

(** As long as the counter does not pass [2^64], the identifiers issued from
    a state are the successive values of its counter. *)
Lemma issued_run cs e :
  0 ≤ nextOrderID e →
  nextOrderID e + Z.of_nat (length (issued (run cs e).1)) ≤ Go.uint64_modulus →
  issued (run cs e).1 =
    (λ i : nat, nextOrderID e + Z.of_nat i) <$> seq 0 (length (issued (run cs e).1)).
Proof.
  revert e. induction cs as [|c cs IH]; intros e Hlo Hhi; [done|].
  rewrite run_cons in *. cbn [fst] in *. rewrite issued_cons in *.
  pose proof (serve_counter c e) as Hc.
  destruct (issued_by (serve c e).1) as [id|].
  - destruct Hc as [-> Hnext]. cbn [length] in *.
    set (n := length (issued (run cs (serve c e).2).1)) in *.
    cbn [seq fmap list_fmap]. f_equal; [lia|].
    destruct (decide (nextOrderID e + 1 < Go.uint64_modulus)) as [Hsmall|Hbig].
    + assert (nextOrderID (serve c e).2 = nextOrderID e + 1) as Hn.
      { rewrite Hnext. unfold Go.uint64_succ. apply Z.mod_small. lia. }
      rewrite IH by lia. fold n. rewrite Hn.
      rewrite <- fmap_S_seq, <- list_fmap_compose.
      apply list_fmap_ext. intros _ i _. simpl. lia.
    + assert (n = 0%nat) as Hn0 by lia.
      rewrite Hn0. subst n. by apply nil_length_inv in Hn0 as ->.
  - specialize (IH (serve c e).2). rewrite Hc in IH. by apply IH.
Qed.

(** The identifiers the successful [SubmitOrder] calls of a process return,
    in the order of the calls. *)
Lemma issued_identifiers cs key secret passphrase :
  let ids := issued (run cs (New key secret passphrase)).1 in
  Z.of_nat (length ids) < Go.uint64_modulus →
  ∀ i id, ids !! i = Some id → id = Z.of_nat i + 1.
Proof.
  intros ids Hn i id Hi.
  pose proof (issued_run cs (New key secret passphrase)) as H.
  cbn [nextOrderID New] in H. fold ids in H.
  rewrite H in Hi by lia.
  rewrite list_lookup_fmap in Hi.
  destruct (seq 0 (length ids) !! i) as [j|] eqn:Hj; [|done].
  apply lookup_seq in Hj as [-> _]. simpl in Hi. injection Hi as <-. lia.
Qed.

(** C2. The identifiers the successful [SubmitOrder] calls of one process
    return are strictly increasing in the order of the calls, no identifier
    is returned twice, and the first one is 1. The process is taken to make
    fewer than [2^64] submissions, the range of the [uint64] counter; the
    ledger keeps a record for each of them. *)
Theorem order_identifiers_increase cs key secret passphrase :
  Z.of_nat (length (issued (run cs (New key secret passphrase)).1)) < Go.uint64_modulus →
  (∀ i j a b, (i < j)%nat →
     issued (run cs (New key secret passphrase)).1 !! i = Some a →
     issued (run cs (New key secret passphrase)).1 !! j = Some b → a < b)
  ∧ NoDup (issued (run cs (New key secret passphrase)).1)
  ∧ (∀ a, head (issued (run cs (New key secret passphrase)).1) = Some a → a = 1).
Proof.
  intros Hn.
  pose proof (issued_identifiers cs key secret passphrase Hn) as Hids.
  cbv zeta in Hids.
  set (ids := issued (run cs (New key secret passphrase)).1) in *.
  split; [|split].
  - intros i j a b Hij Ha Hb.
    apply Hids in Ha, Hb. lia.
  - apply NoDup_alt. intros i j a Ha Hb.
    apply Hids in Ha, Hb. lia.
  - intros a Ha. rewrite head_lookup in Ha. by apply Hids in Ha.
Qed.

Lemma order_identifiers_increase_witness :
  (∀ i j a b, (i < j)%nat →
     issued (run sample_history (New "k" "s" "p")).1 !! i = Some a →
     issued (run sample_history (New "k" "s" "p")).1 !! j = Some b → a < b)
  ∧ NoDup (issued (run sample_history (New "k" "s" "p")).1)
  ∧ (∀ a, head (issued (run sample_history (New "k" "s" "p")).1) = Some a → a = 1).
Proof.
  apply (order_identifiers_increase sample_history "k" "s" "p").
  vm_compute. reflexivity.
Defined.

(** *** Cancellation *)

Lemma reachable_run cs e : reachable e → reachable (run cs e).2.
Proof.
  revert e. induction cs as [|c cs IH]; intros e He; [done|].
  rewrite run_cons. cbn [snd]. apply IH. by apply reachable_serve.
Qed.

Lemma serve_stored c e id :
  is_Some (orders (serve c e).2 !! id) ↔
  issued_by (serve c e).1 = Some id ∨ is_Some (orders e !! id).
Proof.
  destruct c as [env fs|env now order|symbol|now refs]; simpl.
  - destruct (QueryMarkets env fs e) as [r e'] eqn:Hq. simpl.
    replace e' with (QueryMarkets env fs e).2 by by rewrite Hq.
    rewrite (proj2 (QueryMarkets_ledger env fs e)). naive_solver.
  - destruct (dryRun env) eqn:Hd.
    + destruct (SubmitOrder_dry env now order e Hd) as (created & -> & Hid & _).
      simpl. rewrite Hid, lookup_insert. case_decide; subst.
      * split; [by left|by eexists].
      * split; [by right|]. intros [[=]|H']; done.
    + rewrite SubmitOrder_live by done. simpl. naive_solver.
  - naive_solver.
  - rewrite cancel_all_lookup. case_decide; [|naive_solver].
    rewrite fmap_is_Some. naive_solver.
Qed.

(** The ledger holds a record for exactly the identifiers issued so far:
    nothing is ever removed from it. *)
Lemma run_stored cs e id :
  is_Some (orders (run cs e).2 !! id) ↔
  id ∈ issued (run cs e).1 ∨ is_Some (orders e !! id).
Proof.
  revert e. induction cs as [|c cs IH]; intros e.
  - simpl. rewrite elem_of_nil. tauto.
  - rewrite run_cons. cbn [fst snd]. rewrite IH, issued_cons, serve_stored.
    destruct (issued_by (serve c e).1) as [id'|].
    + rewrite elem_of_cons. split; [intros [?|[[= ->]|?]]|intros [[->|?]|?]]; tauto.
    + split; [intros [?|[[=]|?]]|]; tauto.
Qed.

Lemma issued_stored cs key secret passphrase id :
  id ∈ issued (run cs (New key secret passphrase)).1 ↔
  is_Some (orders (run cs (New key secret passphrase)).2 !! id).
Proof.
  rewrite run_stored. simpl. rewrite lookup_empty.
  split; [tauto|]. intros [?|[? [=]]]. done.
Qed.

(** C3. Once [CancelOrders] is called with an identifier that an earlier
    [SubmitOrder] returned, the record stored under it has status
    [canceled] and is not working, and no open-order query, with or without
    a symbol filter, returns an order with that identifier. *)
Theorem CancelOrders_closes_the_order cs key secret passphrase id now refs :
  id ∈ issued (run cs (New key secret passphrase)).1 →
  id ∈ Order.OrderID <$> refs →
  (∃ o, orders (CancelOrders now refs (run cs (New key secret passphrase)).2).2 !! id = Some o
        ∧ Order.Status o = OrderStatusCanceled
        ∧ Order.IsWorking o = false)
  ∧ ∀ symbol o,
      o ∈ (QueryOpenOrders symbol
             (CancelOrders now refs (run cs (New key secret passphrase)).2).2).1 →
      Order.OrderID o ≠ id.
Proof.
  intros Hissued Hrefs.
  set (e := (run cs (New key secret passphrase)).2).
  assert (keyed (orders e)) as Hkeyed.
  { apply reachable_keyed, reachable_run, reachable_New. }
  apply issued_stored in Hissued as [x Hx]. fold e in Hx.
  assert (orders (CancelOrders now refs e).2 !! id = Some (canceled now x)) as Hid.
  { simpl. rewrite cancel_all_lookup, decide_True by done. by rewrite Hx. }
  split.
  - exists (canceled now x). by rewrite Hid.
  - intros symbol o Ho Heq.
    apply elem_of_QueryOpenOrders in Ho as [[Hw _] [k Hk]].
    assert (k = id) as ->.
    { rewrite <- Heq. symmetry. revert Hk. simpl. apply keyed_cancel, Hkeyed. }
    rewrite Hid in Hk. injection Hk as <-. done.
Qed.

Lemma CancelOrders_closes_the_order_witness :
  (∃ o, orders (CancelOrders 200 [ref 3; ref 2]
                  (run sample_history (New "k" "s" "p")).2).2 !! 2 = Some o
        ∧ Order.Status o = OrderStatusCanceled
        ∧ Order.IsWorking o = false)
  ∧ ∀ symbol o,
      o ∈ (QueryOpenOrders symbol
             (CancelOrders 200 [ref 3; ref 2]
                (run sample_history (New "k" "s" "p")).2).2).1 →
      Order.OrderID o ≠ 2.
Proof.
  apply (CancelOrders_closes_the_order sample_history "k" "s" "p" 2 200 [ref 3; ref 2]).
  - vm_compute. apply elem_of_cons. right. apply elem_of_cons. by left.
  - vm_compute. apply elem_of_cons. right. apply elem_of_cons. by left.
Defined.

Lemma cancel_unknown now refs os :
  (∀ r, r ∈ refs → os !! Order.OrderID r = None) →
  fold_left (cancel_one now) refs os = os.
Proof.
  induction refs as [|r refs IH]; intros Hrefs; [done|].
  cbn [fold_left]. unfold cancel_one at 2.
  rewrite (Hrefs r) by (apply elem_of_cons; auto).
  apply IH. intros r' Hr'. apply Hrefs, elem_of_cons. auto.
Qed.

Lemma cancel_known_only now refs os :
  fold_left (cancel_one now) refs os =
  fold_left (cancel_one now) (filter (λ r, is_Some (os !! Order.OrderID r)) refs) os.
Proof.
  apply map_eq. intros k. rewrite !cancel_all_lookup.
  destruct (os !! k) as [x|] eqn:Hx; simpl.
  - assert (k ∈ Order.OrderID <$> refs ↔
            k ∈ Order.OrderID <$> filter (λ r, is_Some (os !! Order.OrderID r)) refs) as Hiff.
    { rewrite !list_elem_of_fmap. setoid_rewrite list_elem_of_filter.
      split; [intros (r & -> & Hr)|intros (r & -> & _ & Hr)]; exists r; eauto. }
    repeat case_decide; tauto.
  - by repeat case_decide.
Qed.

(** C7. [CancelOrders] returns no error, whatever the references are. The
    references whose identifiers no [SubmitOrder] has issued are ignored: the
    call does what it does on the other references alone, and when none of
    the references was issued the counter and every stored order are what
    they were. *)
Theorem CancelOrders_ignores_unknown cs key secret passphrase now refs :
  (CancelOrders now refs (run cs (New key secret passphrase)).2).1 = None
  ∧ CancelOrders now refs (run cs (New key secret passphrase)).2
    = CancelOrders now
        (filter (λ r, Order.OrderID r ∈ issued (run cs (New key secret passphrase)).1) refs)
        (run cs (New key secret passphrase)).2
  ∧ ((∀ r, r ∈ refs → Order.OrderID r ∉ issued (run cs (New key secret passphrase)).1) →
     CancelOrders now refs (run cs (New key secret passphrase)).2
     = (None, (run cs (New key secret passphrase)).2)).
Proof.
  pose proof (issued_stored cs key secret passphrase) as Hstored.
  set (e := (run cs (New key secret passphrase)).2) in *.
  split; [done|]. split.
  - unfold CancelOrders. f_equal. f_equal.
    rewrite cancel_known_only. f_equal.
    apply list_filter_iff. intros r. symmetry. apply Hstored.
  - intros Hrefs. unfold CancelOrders. f_equal.
    rewrite cancel_unknown; [apply with_ledger_same|].
    intros r Hr. apply eq_None_not_Some.
    rewrite <- Hstored. by apply Hrefs.
Qed.

Lemma CancelOrders_ignores_unknown_witness :
  CancelOrders 200 [ref 7; ref 0] (run sample_history (New "k" "s" "p")).2
  = (None, (run sample_history (New "k" "s" "p")).2).
Proof.
  apply (proj2 (proj2 (CancelOrders_ignores_unknown sample_history "k" "s" "p" 200
                         [ref 7; ref 0]))).
  intros r Hr.
  replace (issued (run sample_history (New "k" "s" "p")).1) with [1; 2; 3]
    by (vm_compute; reflexivity).
  apply elem_of_cons in Hr as [->|Hr]; [|apply list_elem_of_singleton in Hr as ->];
    cbn [Order.OrderID ref]; rewrite !elem_of_cons, elem_of_nil;
    intros [?|[?|[?|[]]]]; discriminate.
Defined.

(** *** The submission gate *)




(** C10. A [SubmitOrder] refused because the dry-run flag reads as false
    leaves the [Exchange] as it was: the counter is not advanced and no
    order is stored, so the next dry-run submission gets the identifier it
    would have got without the refused call. *)
Theorem SubmitOrder_refused_leaves_ledger env now order e :
  dryRun env = false →
  (SubmitOrder env now order e).2 = e
  ∧ nextOrderID (SubmitOrder env now order e).2 = nextOrderID e
  ∧ orders (SubmitOrder env now order e).2 = orders e
  ∧ ∀ env' now' order',
      dryRun env' = true →
      ∃ created,
        (SubmitOrder env' now' order' (SubmitOrder env now order e).2).1 = inr created
        ∧ (SubmitOrder env' now' order' e).1 = inr created
        ∧ Order.OrderID created = nextOrderID e.
Proof.
  intros Hlive. rewrite SubmitOrder_live by done. cbn [snd].
  repeat (split; [done|]).
  intros env' now' order' Hdry.
  destruct (SubmitOrder_dry env' now' order' e Hdry) as (created & -> & Hid & _).
  by exists created.
Qed.

Lemma SubmitOrder_refused_leaves_ledger_witness :
  (SubmitOrder live_env 300 (buy "X") (run sample_history (New "k" "s" "p")).2).2
    = (run sample_history (New "k" "s" "p")).2
  ∧ nextOrderID (SubmitOrder live_env 300 (buy "X") (run sample_history (New "k" "s" "p")).2).2
    = nextOrderID (run sample_history (New "k" "s" "p")).2
  ∧ orders (SubmitOrder live_env 300 (buy "X") (run sample_history (New "k" "s" "p")).2).2
    = orders (run sample_history (New "k" "s" "p")).2
  ∧ ∀ env' now' order',
      dryRun env' = true →
      ∃ created,
        (SubmitOrder env' now' order'
           (SubmitOrder live_env 300 (buy "X") (run sample_history (New "k" "s" "p")).2).2).1
          = inr created
        ∧ (SubmitOrder env' now' order' (run sample_history (New "k" "s" "p")).2).1
          = inr created
        ∧ Order.OrderID created = nextOrderID (run sample_history (New "k" "s" "p")).2.
Proof.
  apply (SubmitOrder_refused_leaves_ledger live_env 300 (buy "X")
           (run sample_history (New "k" "s" "p")).2).
  vm_compute. reflexivity.
Defined.

End Ledger.

(** ** Properties of the market catalog *)

Section Catalog.
Import types polymarket History Samples.
Implicit Types (e : Exchange) (mm : gmap string Market.t).
Implicit Types (env : gmap string string) (fs : gmap string Go.file).

(** *** The cache of [QueryMarkets] *)

Lemma stamp_all_lookup mm symbol :
  stamp_all mm !! symbol = stamp symbol <$> mm !! symbol.
Proof.
  unfold stamp_all.
  assert (∀ init : gmap string Market.t,
            map_fold (λ k m acc, <[k:=stamp k m]> acc) init mm !! symbol
            = match mm !! symbol with
              | Some m => Some (stamp symbol m)
              | None => init !! symbol
              end) as H.
  { intros init.
    apply (map_fold_weak_ind
             (λ r (m : gmap string Market.t),
                r !! symbol = match m !! symbol with
                              | Some x => Some (stamp symbol x)
                              | None => init !! symbol
                              end)).
    - by rewrite lookup_empty.
    - intros k x m r Hk IH. rewrite !lookup_insert.
      case_decide; [by subst|done]. }
  rewrite H. by destruct (mm !! symbol).
Qed.

Lemma stamp_all_empty mm : stamp_all mm = ∅ ↔ mm = ∅.
Proof.
  rewrite !map_empty. setoid_rewrite stamp_all_lookup.
  setoid_rewrite fmap_None. done.
Qed.

Lemma len_positive (mm : MarketMap) :
  (0 < len mm)%nat ↔ ∃ m, mm = Some m ∧ m ≠ ∅.
Proof.
  destruct mm as [m|]; simpl.
  - split.
    + intros H. exists m. split; [done|]. apply map_size_non_empty_iff. lia.
    + intros (m' & [= <-] & H). apply map_size_non_empty_iff in H. lia.
  - split; [lia|]. by intros (m & [=] & _).
Qed.

Lemma defaultExampleMarkets_not_empty : defaultExampleMarkets ≠ ∅.
Proof. unfold defaultExampleMarkets. apply insert_non_empty. Qed.

(** A cached catalog is returned as it is, without a look at the
    environment. *)
Lemma QueryMarkets_cached env fs e mm :
  markets e = Some mm → mm ≠ ∅ → QueryMarkets env fs e = (inr (Some mm), e).
Proof.
  intros He Hmm. unfold QueryMarkets. rewrite He.
  rewrite bool_decide_eq_true_2 by done.
  rewrite bool_decide_eq_true_2; [done|].
  apply len_positive. eauto.
Qed.

(** A successful [QueryMarkets] leaves the catalog it returns in the cache,
    and that catalog is not empty. *)
Lemma QueryMarkets_caches env fs e catalog e' :
  QueryMarkets env fs e = (inr catalog, e') →
  ∃ mm, catalog = Some mm ∧ mm ≠ ∅ ∧ markets e' = Some mm.
Proof.
  unfold QueryMarkets.
  destruct (bool_decide (markets e ≠ None) && bool_decide (0 < len (markets e))%nat) eqn:Hc.
  - intros [= <- <-]. apply andb_true_iff in Hc as [_ Hlen].
    apply bool_decide_eq_true in Hlen. apply len_positive in Hlen as (mm & Hmm & Hne).
    eauto.
  - destruct (loadMarketsFromEnv env fs) as [err|loaded]; [done|].
    intros [= <- <-]. simpl. eexists. split; [done|]. split; [|done].
    rewrite stamp_all_empty.
    destruct loaded as [mm|]; [|apply defaultExampleMarkets_not_empty].
    destruct (bool_decide (size mm = 0%nat)) eqn:Hsize;
      [apply defaultExampleMarkets_not_empty|].
    apply bool_decide_eq_false in Hsize. by apply map_size_non_empty_iff.
Qed.

Lemma serve_keeps_cache c e mm :
  markets e = Some mm → mm ≠ ∅ → markets (serve c e).2 = Some mm.
Proof.
  intros He Hmm. destruct c as [env fs|env now order|symbol|now refs]; simpl.
  - by rewrite (QueryMarkets_cached env fs e mm).
  - unfold SubmitOrder. by destruct (negb (dryRun env)).
  - done.
  - done.
Qed.

Lemma run_keeps_cache cs e mm :
  markets e = Some mm → mm ≠ ∅ → markets (run cs e).2 = Some mm.
Proof.
  revert e. induction cs as [|c cs IH]; intros e He Hmm; [done|].
  rewrite run_cons. cbn [snd]. apply IH; [|done]. by apply serve_keeps_cache.
Qed.

(** C8. After one successful [QueryMarkets], every later [QueryMarkets] of
    the process, whatever the calls in between and whatever the environment
    and the files have become, returns the same catalog (the same symbols
    with the same records) and no error. *)
Theorem QueryMarkets_loads_once env fs e catalog e' :
  QueryMarkets env fs e = (inr catalog, e') →
  ∀ cs env' fs',
    QueryMarkets env' fs' (run cs e').2 = (inr catalog, (run cs e').2).
Proof.
  intros Hq cs env' fs'.
  apply QueryMarkets_caches in Hq as (mm & -> & Hne & Hcache).
  apply QueryMarkets_cached; [|done].
  by apply run_keeps_cache.
Qed.

Lemma QueryMarkets_loads_once_witness :
  QueryMarkets {[ envMarketsJSON := catalog_Y ]} ∅
    (run sample_history (with_markets cached_X (New "k" "s" "p"))).2
  = (inr cached_X, (run sample_history (with_markets cached_X (New "k" "s" "p"))).2).
Proof.
  apply (QueryMarkets_loads_once {[ envMarketsJSON := catalog_X ]} ∅ (New "k" "s" "p")).
  vm_compute. reflexivity.
Defined.

(** *** The sources of the catalog *)






(** *** The two shapes of a catalog document *)

Lemma index_markets_unnamed arr (out : gmap string Market.t) :
  (∃ m, m ∈ arr ∧ Market.Symbol m = "") → index_markets arr out = inl ErrEmptySymbol.
Proof.
  revert out. induction arr as [|m arr IH]; intros out (x & Hx & Hsym).
  - by apply elem_of_nil in Hx.
  - simpl. case_bool_decide as Hm; [done|].
    apply IH. exists x. split; [|done].
    apply elem_of_cons in Hx as [->|Hx]; done.
Qed.

Lemma index_markets_named arr (out : gmap string Market.t) :
  (∀ m, m ∈ arr → Market.Symbol m ≠ "") →
  ∃ out', index_markets arr out = inr out'
          ∧ ∀ symbol,
              out' !! symbol
              = match last (filter (λ m, Market.Symbol m = symbol) arr) with
                | Some m => Some m
                | None => out !! symbol
                end.
Proof.
  revert out. induction arr as [|m arr IH]; intros out Hnamed.
  - exists out. by split.
  - simpl. rewrite bool_decide_eq_false_2 by (apply Hnamed, elem_of_cons; auto).
    destruct (IH (<[Market.Symbol m := m]> out)) as (out' & -> & Hout').
    { intros x Hx. apply Hnamed, elem_of_cons. auto. }
    exists out'. split; [done|]. intros symbol. rewrite Hout'.
    destruct (decide (Market.Symbol m = symbol)) as [Heq|Hne].
    + rewrite filter_cons_True by done. rewrite last_cons.
      destruct (last _); [done|]. subst symbol. by rewrite lookup_insert_eq.
    + rewrite filter_cons_False by done.
      destruct (last _); [done|]. by rewrite lookup_insert_ne.
Qed.

Lemma decodeMarketsJSON_of_map b (decoded : MarketMap) :
  Unmarshal.MarketMap_of b = inr decoded → (0 < len decoded)%nat →
  decodeMarketsJSON b = inr decoded.
Proof.
  intros Hmm Hlen. unfold decodeMarketsJSON. rewrite Hmm.
  by rewrite bool_decide_eq_true_2.
Qed.

Lemma decodeMarketsJSON_of_array b :
  (∀ decoded : MarketMap, Unmarshal.MarketMap_of b = inr decoded → len decoded = 0%nat) →
  decodeMarketsJSON b
  = match Unmarshal.Markets_of b with
    | inl err => inl (ErrDecodeMarkets err)
    | inr arr => sum_map id Some (index_markets arr ∅)
    end.
Proof.
  intros Hnot. unfold decodeMarketsJSON.
  destruct (Unmarshal.MarketMap_of b) as [err|decoded] eqn:Hmm; [done|].
  rewrite bool_decide_eq_false_2; [done|]. rewrite (Hnot decoded); [lia|done].
Qed.

(** C5. The policy of [decodeMarketsJSON]. The document is first decoded as a map
    from symbol to record, and the map is the result exactly when that
    succeeds with at least one entry. Otherwise the document is decoded as an
    array of records: a failure of that is a decode error wrapping it; an
    array with a record without a symbol is the decode error with the fixed
    message of [ErrEmptySymbol]; and any other array gives the map that holds,
    under each symbol, the last record of the array with that symbol. *)
Theorem decodeMarketsJSON_policy b :
  (∀ decoded : MarketMap,
     Unmarshal.MarketMap_of b = inr decoded → (0 < len decoded)%nat →
     decodeMarketsJSON b = inr decoded)
  ∧ ((∀ decoded : MarketMap,
        Unmarshal.MarketMap_of b = inr decoded → len decoded = 0%nat) →
     (∀ cause, Unmarshal.Markets_of b = inl cause →
        decodeMarketsJSON b = inl (ErrDecodeMarkets cause)
        ∧ kind (ErrDecodeMarkets cause) = DecodeError)
     ∧ (∀ arr, Unmarshal.Markets_of b = inr arr →
          ((∃ m, m ∈ arr ∧ Market.Symbol m = "") →
             decodeMarketsJSON b = inl ErrEmptySymbol
             ∧ kind ErrEmptySymbol = DecodeError
             ∧ Error ErrEmptySymbol = "polymarket: market symbol is empty in json")
          ∧ ((∀ m, m ∈ arr → Market.Symbol m ≠ "") →
             ∃ out, decodeMarketsJSON b = inr (Some out)
                    ∧ ∀ symbol,
                        out !! symbol
                        = last (filter (λ m, Market.Symbol m = symbol) arr)))).
Proof.
  split.
  - apply decodeMarketsJSON_of_map.
  - intros Hnot. rewrite (decodeMarketsJSON_of_array b Hnot). split.
    + by intros cause ->.
    + intros arr ->. split.
      * intros Hunnamed. by rewrite index_markets_unnamed.
      * intros Hnamed.
        destruct (index_markets_named arr ∅ Hnamed) as (out & -> & Hout).
        exists out. split; [done|]. intros symbol. rewrite Hout.
        destruct (last _); [done|]. apply lookup_empty.
Qed.

(** The catalog of the specification's example, an array with the one record
    X, decodes to the map that holds that record under X. *)
Lemma decodeMarketsJSON_policy_witness :
  ∃ out, decodeMarketsJSON catalog_X = inr (Some out)
         ∧ ∀ symbol,
             out !! symbol = last (filter (λ m, Market.Symbol m = symbol) [market_X]).
Proof.
  destruct (decodeMarketsJSON_policy catalog_X) as [_ Harray].
  destruct Harray as [_ Harr].
  { intros decoded Hmm. vm_compute in Hmm. discriminate Hmm. }
  destruct (Harr [market_X]) as [_ Hnamed]; [vm_compute; reflexivity|].
  apply Hnamed. intros m Hm. apply list_elem_of_singleton in Hm as ->.
  vm_compute. intros H. discriminate H.
Defined.

(** Against C5 as the specification words it: the error for a record without
    a symbol is one fixed value, and nothing in it reports which record of
    the array it was. The two arrays differ in the position and in the fields
    of their first such record, and fail with the same error. *)
Lemma ErrEmptySymbol_names_no_record :
  ¬ ∃ report : error → nat * Market.t,
      ∀ b arr hit,
        Unmarshal.Markets_of b = inr arr → first_unnamed arr = Some hit →
        ∃ err, decodeMarketsJSON b = inl err ∧ report err = hit.
Proof.
  intros (report & Hreport).
  destruct (Hreport catalog_unnamed_A
              [Market.with_BaseCurrency "A" Market.zero]
              (0%nat, Market.with_BaseCurrency "A" Market.zero))
    as (errA & HA & HrA); [vm_compute; reflexivity..|].
  destruct (Hreport catalog_unnamed_B
              [Market.with_Symbol "X" Market.zero; Market.with_BaseCurrency "B" Market.zero]
              (1%nat, Market.with_BaseCurrency "B" Market.zero))
    as (errB & HB & HrB); [vm_compute; reflexivity..|].
  vm_compute in HA, HB. injection HA as <-. injection HB as <-.
  rewrite HrA in HrB. discriminate HrB.
Qed.

(** C4, as the code has it. The document with the one entry Y, whose record
    has an empty symbol, is a catalog of the first shape: it decodes to the
    map with that record under Y, from the inline JSON key as well, and
    [QueryMarkets] returns it with the symbol of the record filled in from
    the key. *)
Theorem catalog_Y_is_loaded fs key secret passphrase :
  decodeMarketsJSON catalog_Y = inr (Some {[ "Y" := market_Y ]})
  ∧ loadMarketsFromEnv {[ envMarketsJSON := catalog_Y ]} fs = inr (Some {[ "Y" := market_Y ]})
  ∧ (QueryMarkets {[ envMarketsJSON := catalog_Y ]} fs (New key secret passphrase)).1
    = inr (Some {[ "Y" := Market.with_Exchange ExchangePolymarket
                            (Market.with_Symbol "Y" market_Y) ]}).
Proof.
  assert (decodeMarketsJSON catalog_Y = inr (Some {[ "Y" := market_Y ]})) as Hdecode.
  { apply decodeMarketsJSON_of_map; vm_compute; [reflexivity|lia]. }
  assert (loadMarketsFromEnv {[ envMarketsJSON := catalog_Y ]} fs
          = inr (Some {[ "Y" := market_Y ]})) as Hload.
  { rewrite <- Hdecode. reflexivity. }
  split; [done|]. split; [done|].
  unfold QueryMarkets. rewrite Hload. reflexivity.
Qed.

(** Against C4 as the specification words it: that document gives no decode
    error, decoded alone, loaded from either source, or queried. *)
Lemma catalog_Y_is_no_DecodeError :
  ¬ (∃ err, decodeMarketsJSON catalog_Y = inl err ∧ kind err = DecodeError)
  ∧ ¬ (∃ err, loadMarketsFromEnv {[ envMarketsJSON := catalog_Y ]} ∅ = inl err
              ∧ kind err = DecodeError)
  ∧ ¬ (∃ err, loadMarketsFromEnv {[ envMarketsFile := "markets.json" ]}
                {[ "markets.json" := Go.Readable catalog_Y ]} = inl err
              ∧ kind err = DecodeError)
  ∧ ¬ (∃ err, (QueryMarkets {[ envMarketsJSON := catalog_Y ]} ∅ (New "k" "s" "p")).1 = inl err
              ∧ kind err = DecodeError).
Proof.
  repeat split; intros (err & Herr & _); vm_compute in Herr; discriminate Herr.
Qed.

End Catalog.

(** ** More on the order ledger *)

Section LedgerRecords.
Import types polymarket History Samples Invariant.
Implicit Types (e : Exchange) (os : gmap Z Order.t) (o : Order.t).
Implicit Types (env : gmap string string) (refs : list Order.t).

Lemma recorded_canceled now k o : recorded k o → recorded k (canceled now o).
Proof.
  intros (Hid & Hex & Hq & Hf & Hm & Hi & _). unfold recorded. simpl.
  repeat (split; [done|]). by right.
Qed.

Lemma serve_recorded c e :
  (∀ k o, orders e !! k = Some o → recorded k o) →
  ∀ k o, orders (serve c e).2 !! k = Some o → recorded k o.
Proof.
  intros He k o. destruct c as [env fs|env now order|symbol|now refs]; simpl.
  - destruct (QueryMarkets env fs e) as [r e'] eqn:Hq. simpl.
    replace e' with (QueryMarkets env fs e).2 by by rewrite Hq.
    rewrite (proj2 (QueryMarkets_ledger env fs e)). apply He.
  - unfold SubmitOrder. destruct (negb (dryRun env)); simpl; [apply He|].
    rewrite lookup_insert. case_decide; [|apply He].
    intros [= <-]. subst k. unfold recorded. simpl.
    repeat (split; [done|]). by left.
  - apply He.
  - rewrite cancel_all_lookup. case_decide; [|apply He].
    destruct (orders e !! k) as [x|] eqn:Hx; [|done].
    intros [= <-]. by apply recorded_canceled, He.
Qed.

Lemma reachable_recorded e :
  reachable e → ∀ k o, orders e !! k = Some o → recorded k o.
Proof.
  induction 1 as [key secret passphrase|c e _ IH].
  - intros k o. simpl. by rewrite lookup_empty.
  - by apply serve_recorded.
Qed.

(** X1. Whatever the host has called, every record of the ledger is stored
    under its own identifier, names this venue, has nothing executed, and is
    either new, working and marked NEW, or canceled, not working and marked
    CANCELED: the working flag never disagrees with the status. *)
Theorem ledger_records_are_consistent cs key secret passphrase k o :
  orders (run cs (New key secret passphrase)).2 !! k = Some o → recorded k o.
Proof.
  apply reachable_recorded, reachable_run, reachable_New.
Qed.

Lemma ledger_records_are_consistent_witness :
  recorded 1 (canceled 103 (Order.mk (buy "PM_BTC_15M_UP_YES_USDC") ExchangePolymarket 1
                              OrderStatusNew 0 true 100 100 "NEW" false false false)).
Proof.
  apply (ledger_records_are_consistent sample_history "k" "s" "p").
  vm_compute. reflexivity.
Defined.

(** *** What an open-order query returns *)






End LedgerRecords.

(** ** More on cancellation *)

Section Cancellation.
Import types polymarket History Samples Invariant.
Implicit Types (e : Exchange) (os : gmap Z Order.t) (o : Order.t).
Implicit Types (env : gmap string string) (refs : list Order.t).





(** X4. [CancelOrders] looks at nothing but the identifiers of its
    references: two lists that name the same identifiers, in any order and
    any number of times, have the same effect; and a second call with the
    same references at the same time changes nothing more. *)
Theorem CancelOrders_depends_on_the_identifiers now refs refs' e :
  (∀ id, id ∈ named refs ↔ id ∈ named refs') →
  CancelOrders now refs e = CancelOrders now refs' e
  ∧ CancelOrders now refs (CancelOrders now refs e).2 = CancelOrders now refs e.
Proof.
  intros Hsame. unfold CancelOrders. cbn [snd nextOrderID orders with_ledger].
  split; f_equal.
  - f_equal. apply map_eq. intros k. rewrite !cancel_all_lookup.
    fold (named refs) (named refs'). specialize (Hsame k).
    repeat case_decide; tauto.
  - unfold with_ledger. cbn. f_equal.
    apply map_eq. intros k. rewrite !cancel_all_lookup.
    case_decide; [|done].
    destruct (orders e !! k); [|done]. simpl. by rewrite canceled_idemp.
Qed.

Lemma CancelOrders_depends_on_the_identifiers_witness :
  CancelOrders 200 [ref 3; ref 1; ref 3] (run sample_history (New "k" "s" "p")).2
  = CancelOrders 200
      [Order.mk (buy "X") "binance" 1 OrderStatusCanceled 7 true 5 6 "" true true true; ref 3]
      (run sample_history (New "k" "s" "p")).2
  ∧ CancelOrders 200 [ref 3; ref 1; ref 3]
      (CancelOrders 200 [ref 3; ref 1; ref 3] (run sample_history (New "k" "s" "p")).2).2
    = CancelOrders 200 [ref 3; ref 1; ref 3] (run sample_history (New "k" "s" "p")).2.
Proof.
  apply CancelOrders_depends_on_the_identifiers.
  intros id. unfold named. cbn. rewrite !elem_of_cons, !elem_of_nil. tauto.
Defined.

(** X5. [CancelOrders] neither adds nor removes a record, and touches
    neither the counter nor the catalog. A record no reference names stays as
    it is; a stored record a reference names, working or canceled already,
    becomes the canceled record with the time of the call as its update time
    and with its request, identifier, creation time and executed quantity
    kept. *)
Theorem CancelOrders_keeps_the_ledger_in_shape now refs e :
  nextOrderID (CancelOrders now refs e).2 = nextOrderID e
  ∧ markets (CancelOrders now refs e).2 = markets e
  ∧ dom (orders (CancelOrders now refs e).2) = dom (orders e)
  ∧ (∀ id, id ∉ named refs → orders (CancelOrders now refs e).2 !! id = orders e !! id)
  ∧ (∀ id o, id ∈ named refs → orders e !! id = Some o →
       ∃ o', orders (CancelOrders now refs e).2 !! id = Some o'
             ∧ Order.Status o' = OrderStatusCanceled
             ∧ Order.IsWorking o' = false
             ∧ Order.UpdateTime o' = now
             ∧ Order.SubmitOrder o' = Order.SubmitOrder o
             ∧ Order.OrderID o' = Order.OrderID o
             ∧ Order.CreationTime o' = Order.CreationTime o
             ∧ Order.ExecutedQuantity o' = Order.ExecutedQuantity o).
Proof.
  cbn [CancelOrders snd nextOrderID markets orders with_ledger].
  split; [done|]. split; [done|]. split; [|split].
  - apply set_eq. intros k. rewrite !elem_of_dom, cancel_all_lookup.
    case_decide; [|done]. by rewrite fmap_is_Some.
  - intros id Hid. rewrite cancel_all_lookup. fold (named refs). by case_decide.
  - intros id o Hid Ho. exists (canceled now o).
    rewrite cancel_all_lookup. fold (named refs).
    rewrite decide_True by done. by rewrite Ho.
Qed.

End Cancellation.

(** ** More on submission: the ledger over a whole process *)

Section Process.
Import types polymarket History Samples Invariant.
Implicit Types (e : Exchange) (os : gmap Z Order.t) (o : Order.t).
Implicit Types (env : gmap string string) (cs : list call).

Lemma run_app cs1 cs2 e :
  run (cs1 ++ cs2) e
  = ((run cs1 e).1 ++ (run cs2 (run cs1 e).2).1, (run cs2 (run cs1 e).2).2).
Proof.
  revert e. induction cs1 as [|c cs1 IH]; intros e.
  - simpl. by destruct (run cs2 e).
  - rewrite <- app_comm_cons, !run_cons, IH. done.
Qed.

Lemma issued_app rs1 rs2 : issued (rs1 ++ rs2) = issued rs1 ++ issued rs2.
Proof. apply omap_app. Qed.

Lemma uint64_succ_range x : 0 ≤ Go.uint64_succ x < Go.uint64_modulus.
Proof. unfold Go.uint64_succ. apply Z.mod_pos_bound. done. Qed.

Lemma serve_counter_range c e :
  0 ≤ nextOrderID e < Go.uint64_modulus →
  0 ≤ nextOrderID (serve c e).2 < Go.uint64_modulus.
Proof.
  intros He. pose proof (serve_counter c e) as Hc.
  destruct (issued_by (serve c e).1).
  - destruct Hc as [_ ->]. apply uint64_succ_range.
  - by rewrite Hc.
Qed.

(** The counter after a history: one more, modulo [2^64], for each
    identifier issued. *)
Lemma run_counter cs e :
  0 ≤ nextOrderID e < Go.uint64_modulus →
  nextOrderID (run cs e).2
  = (nextOrderID e + Z.of_nat (length (issued (run cs e).1))) mod Go.uint64_modulus.
Proof.
  revert e. induction cs as [|c cs IH]; intros e He.
  - simpl. rewrite Z.add_0_r. symmetry. by apply Z.mod_small.
  - rewrite run_cons. cbn [fst snd]. rewrite issued_cons.
    rewrite IH by by apply serve_counter_range.
    pose proof (serve_counter c e) as Hc.
    destruct (issued_by (serve c e).1).
    + destruct Hc as [_ ->]. unfold Go.uint64_succ. cbn [length].
      rewrite Zplus_mod_idemp_l. f_equal. lia.
    + by rewrite Hc.
Qed.

Lemma issued_from_New cs key secret passphrase :
  Z.of_nat (length (issued (run cs (New key secret passphrase)).1)) < Go.uint64_modulus →
  issued (run cs (New key secret passphrase)).1
  = (λ i : nat, 1 + Z.of_nat i)
      <$> seq 0 (length (issued (run cs (New key secret passphrase)).1)).
Proof. intros Hn. apply (issued_run cs (New key secret passphrase)); simpl; lia. Qed.

Lemma elem_of_issued_from_New cs key secret passphrase id :
  Z.of_nat (length (issued (run cs (New key secret passphrase)).1)) < Go.uint64_modulus →
  id ∈ issued (run cs (New key secret passphrase)).1
  ↔ 1 ≤ id ≤ Z.of_nat (length (issued (run cs (New key secret passphrase)).1)).
Proof.
  intros Hn. rewrite (issued_from_New cs key secret passphrase Hn) at 1.
  rewrite list_elem_of_fmap. setoid_rewrite elem_of_seq. split.
  - intros (i & -> & Hi). lia.
  - intros Hid. exists (Z.to_nat (id - 1)). lia.
Qed.

(** The next identifier is not in use, as long as the counter has not gone
    round. *)
Lemma next_is_fresh cs key secret passphrase :
  Z.of_nat (length (issued (run cs (New key secret passphrase)).1)) < Go.uint64_modulus →
  orders (run cs (New key secret passphrase)).2
    !! nextOrderID (run cs (New key secret passphrase)).2 = None.
Proof.
  intros Hn. apply eq_None_not_Some.
  rewrite <- issued_stored, elem_of_issued_from_New by done.
  rewrite run_counter by (simpl; unfold Go.uint64_modulus; lia). cbn [nextOrderID New].
  set (n := Z.of_nat (length (issued (run cs (New key secret passphrase)).1))) in *.
  destruct (decide (1 + n < Go.uint64_modulus)) as [Hlt|Hge].
  - rewrite Z.mod_small by lia. lia.
  - assert (1 + n = Go.uint64_modulus) as -> by lia.
    rewrite Z_mod_same_full. lia.
Qed.

(** X6. In a process that has made [n] successful submissions, fewer than
    [2^64], the ledger holds a record for exactly the identifiers 1 to [n]
    (canceled orders included: nothing is ever removed), [n] records in all,
    and the counter stands at [n + 1] (0 once [n + 1] is [2^64]), an
    identifier not in use. *)
Theorem ledger_holds_every_issued_order cs key secret passphrase :
  Z.of_nat (length (issued (run cs (New key secret passphrase)).1)) < Go.uint64_modulus →
  (∀ id, is_Some (orders (run cs (New key secret passphrase)).2 !! id)
         ↔ 1 ≤ id ≤ Z.of_nat (length (issued (run cs (New key secret passphrase)).1)))
  ∧ size (orders (run cs (New key secret passphrase)).2)
    = length (issued (run cs (New key secret passphrase)).1)
  ∧ nextOrderID (run cs (New key secret passphrase)).2
    = (Z.of_nat (length (issued (run cs (New key secret passphrase)).1)) + 1)
        mod Go.uint64_modulus
  ∧ orders (run cs (New key secret passphrase)).2
      !! nextOrderID (run cs (New key secret passphrase)).2 = None.
Proof.
  intros Hn. split; [|split; [|split]].
  - intros id. by rewrite <- issued_stored, elem_of_issued_from_New.
  - rewrite <- size_dom.
    assert (dom (orders (run cs (New key secret passphrase)).2)
            = list_to_set (issued (run cs (New key secret passphrase)).1)) as ->.
    { apply set_eq. intros id.
      by rewrite elem_of_dom, elem_of_list_to_set, issued_stored. }
    apply size_list_to_set.
    rewrite (issued_from_New cs key secret passphrase Hn).
    apply NoDup_fmap_2; [|apply NoDup_seq].
    intros i j Hij. lia.
  - rewrite run_counter by (simpl; unfold Go.uint64_modulus; lia).
    cbn [nextOrderID New]. f_equal. lia.
  - by apply next_is_fresh.
Qed.

Lemma ledger_holds_every_issued_order_witness :
  (∀ id, is_Some (orders (run sample_history (New "k" "s" "p")).2 !! id)
         ↔ 1 ≤ id ≤ Z.of_nat (length (issued (run sample_history (New "k" "s" "p")).1)))
  ∧ size (orders (run sample_history (New "k" "s" "p")).2)
    = length (issued (run sample_history (New "k" "s" "p")).1)
  ∧ nextOrderID (run sample_history (New "k" "s" "p")).2
    = (Z.of_nat (length (issued (run sample_history (New "k" "s" "p")).1)) + 1)
        mod Go.uint64_modulus
  ∧ orders (run sample_history (New "k" "s" "p")).2
      !! nextOrderID (run sample_history (New "k" "s" "p")).2 = None.
Proof.
  apply (ledger_holds_every_issued_order sample_history "k" "s" "p").
  vm_compute. reflexivity.
Defined.

(** X7. In a process that has made fewer than [2^64] successful submissions,
    a dry-run [SubmitOrder] adds the order it returns to the open orders and
    changes nothing else in them: an open-order query afterwards returns what
    it returned before and, when its symbol filter lets the new order
    through, that order once more. *)
Theorem SubmitOrder_adds_one_open_order cs key secret passphrase env now order :
  Z.of_nat (length (issued (run cs (New key secret passphrase)).1)) < Go.uint64_modulus →
  dryRun env = true →
  ∃ created,
    (SubmitOrder env now order (run cs (New key secret passphrase)).2).1 = inr created
    ∧ Order.SubmitOrder created = order
    ∧ ∀ symbol,
        (QueryOpenOrders symbol
           (SubmitOrder env now order (run cs (New key secret passphrase)).2).2).1
        ≡ₚ (if decide (symbol = "" ∨ SubmitOrder.Symbol order = symbol)
            then [created] else [])
           ++ (QueryOpenOrders symbol (run cs (New key secret passphrase)).2).1.
Proof.
  intros Hn Hdry. pose proof (next_is_fresh cs key secret passphrase Hn) as Hfresh.
  set (e := (run cs (New key secret passphrase)).2) in *.
  destruct (SubmitOrder_dry env now order e Hdry)
    as (created & -> & Hid & Hreq & _ & Hw & _).
  exists created. split; [done|]. split; [done|].
  intros symbol. rewrite !QueryOpenOrders_filter. cbn [snd orders with_ledger].
  rewrite map_to_list_insert by done. rewrite fmap_cons. cbn [snd].
  assert (open_for symbol created ↔ symbol = "" ∨ SubmitOrder.Symbol order = symbol)
    as Hopen.
  { unfold open_for, Order.Symbol. rewrite Hreq, Hw. tauto. }
  case_decide as Hs.
  - by rewrite filter_cons_True by by apply Hopen.
  - by rewrite filter_cons_False by by rewrite Hopen.
Qed.

Lemma SubmitOrder_adds_one_open_order_witness :
  ∃ created,
    (SubmitOrder ∅ 300 (buy "PM_BTC_15M_UP_NO_USDC")
       (run sample_history (New "k" "s" "p")).2).1 = inr created
    ∧ Order.SubmitOrder created = buy "PM_BTC_15M_UP_NO_USDC"
    ∧ ∀ symbol,
        (QueryOpenOrders symbol
           (SubmitOrder ∅ 300 (buy "PM_BTC_15M_UP_NO_USDC")
              (run sample_history (New "k" "s" "p")).2).2).1
        ≡ₚ (if decide (symbol = ""
                       ∨ SubmitOrder.Symbol (buy "PM_BTC_15M_UP_NO_USDC") = symbol)
            then [created] else [])
           ++ (QueryOpenOrders symbol (run sample_history (New "k" "s" "p")).2).1.
Proof.
  apply (SubmitOrder_adds_one_open_order sample_history "k" "s" "p").
  - vm_compute. reflexivity.
  - reflexivity.
Defined.

(** What the calls of a history keep of a record that is not working. *)
Lemma serve_keeps_closed c e id o :
  orders e !! nextOrderID e = None →
  orders e !! id = Some o → Order.IsWorking o = false →
  ∃ o', orders (serve c e).2 !! id = Some o'
        ∧ Order.IsWorking o' = false
        ∧ Order.SubmitOrder o' = Order.SubmitOrder o
        ∧ Order.CreationTime o' = Order.CreationTime o.
Proof.
  intros Hfresh Ho Hw. destruct c as [env fs|env now order|symbol|now refs]; simpl.
  - destruct (QueryMarkets env fs e) as [r e'] eqn:Hq. simpl.
    replace e' with (QueryMarkets env fs e).2 by by rewrite Hq.
    rewrite (proj2 (QueryMarkets_ledger env fs e)). eauto.
  - unfold SubmitOrder. destruct (negb (dryRun env)); simpl; [eauto|].
    rewrite lookup_insert_ne by congruence. eauto.
  - eauto.
  - rewrite cancel_all_lookup. case_decide; [|eauto].
    rewrite Ho. simpl. eauto.
Qed.

Lemma run_keeps_closed cs2 cs1 key secret passphrase id o :
  Z.of_nat (length (issued (run (cs1 ++ cs2) (New key secret passphrase)).1))
    < Go.uint64_modulus →
  orders (run cs1 (New key secret passphrase)).2 !! id = Some o →
  Order.IsWorking o = false →
  ∃ o', orders (run (cs1 ++ cs2) (New key secret passphrase)).2 !! id = Some o'
        ∧ Order.IsWorking o' = false
        ∧ Order.SubmitOrder o' = Order.SubmitOrder o
        ∧ Order.CreationTime o' = Order.CreationTime o.
Proof.
  revert cs1 o. induction cs2 as [|c cs2 IH]; intros cs1 o Hn Ho Hw.
  - rewrite app_nil_r. eauto.
  - rewrite cons_middle, app_assoc in Hn |- *.
    assert (Z.of_nat (length (issued (run cs1 (New key secret passphrase)).1))
            < Go.uint64_modulus) as Hn1.
    { rewrite <- app_assoc, run_app in Hn. cbn [fst] in Hn.
      rewrite issued_app, length_app in Hn. lia. }
    destruct (serve_keeps_closed c (run cs1 (New key secret passphrase)).2 id o)
      as (o1 & Ho1 & Hw1 & Hreq1 & Hct1); [by apply next_is_fresh|done..|].
    destruct (IH (cs1 ++ [c]) o1) as (o' & Ho' & Hw' & Hreq' & Hct'); [done| |done|].
    { rewrite run_app. cbn [snd]. rewrite run_cons. cbn [snd run]. done. }
    exists o'. repeat split; [done..|congruence|congruence].
Qed.

(** X8. Cancellation is final. In a process that makes fewer than [2^64]
    successful submissions, a record that is not working at some point is
    still stored and not working after any further calls, with the status
    canceled and with its request and creation time as they were; no later
    open-order query returns an order with its identifier. *)
Theorem cancellation_is_final cs1 cs2 key secret passphrase id o :
  Z.of_nat (length (issued (run (cs1 ++ cs2) (New key secret passphrase)).1))
    < Go.uint64_modulus →
  orders (run cs1 (New key secret passphrase)).2 !! id = Some o →
  Order.IsWorking o = false →
  (∃ o', orders (run (cs1 ++ cs2) (New key secret passphrase)).2 !! id = Some o'
         ∧ Order.IsWorking o' = false
         ∧ Order.Status o' = OrderStatusCanceled
         ∧ Order.SubmitOrder o' = Order.SubmitOrder o
         ∧ Order.CreationTime o' = Order.CreationTime o)
  ∧ ∀ symbol x,
      x ∈ (QueryOpenOrders symbol (run (cs1 ++ cs2) (New key secret passphrase)).2).1 →
      Order.OrderID x ≠ id.
Proof.
  intros Hn Ho Hw.
  destruct (run_keeps_closed cs2 cs1 key secret passphrase id o Hn Ho Hw)
    as (o' & Ho' & Hw' & Hreq & Hct).
  assert (reachable (run (cs1 ++ cs2) (New key secret passphrase)).2) as Hreach.
  { apply reachable_run, reachable_New. }
  split.
  - exists o'. repeat (split; [done|]). split; [|done].
    destruct (reachable_recorded _ Hreach id o' Ho') as (_ & _ & _ & _ & _ & _ & Hstate).
    destruct Hstate as [(_ & Hworking & _)|(Hst & _)]; [congruence|done].
  - intros symbol x Hx Hid.
    apply elem_of_QueryOpenOrders in Hx as [[Hxw _] [k Hk]].
    pose proof (reachable_keyed _ Hreach k x Hk) as Hkx.
    assert (k = id) as -> by congruence.
    rewrite Ho' in Hk. injection Hk as <-. congruence.
Qed.

Lemma cancellation_is_final_witness :
  (∃ o', orders (run (sample_history
                        ++ [CallCancelOrders 400 [ref 1; ref 2];
                            CallSubmitOrder ∅ 401 (buy "PM_BTC_15M_UP_YES_USDC")])
                   (New "k" "s" "p")).2 !! 1 = Some o'
         ∧ Order.IsWorking o' = false
         ∧ Order.Status o' = OrderStatusCanceled
         ∧ Order.SubmitOrder o'
           = Order.SubmitOrder
               (canceled 103 (Order.mk (buy "PM_BTC_15M_UP_YES_USDC") ExchangePolymarket 1
                                OrderStatusNew 0 true 100 100 "NEW" false false false))
         ∧ Order.CreationTime o'
           = Order.CreationTime
               (canceled 103 (Order.mk (buy "PM_BTC_15M_UP_YES_USDC") ExchangePolymarket 1
                                OrderStatusNew 0 true 100 100 "NEW" false false false)))
  ∧ ∀ symbol x,
      x ∈ (QueryOpenOrders symbol
             (run (sample_history
                     ++ [CallCancelOrders 400 [ref 1; ref 2];
                         CallSubmitOrder ∅ 401 (buy "PM_BTC_15M_UP_YES_USDC")])
                (New "k" "s" "p")).2).1 →
      Order.OrderID x ≠ 1.
Proof.
  apply (cancellation_is_final sample_history).
  - vm_compute. reflexivity.
  - vm_compute. reflexivity.
  - reflexivity.
Defined.

End Process.

(** ** More on the market catalog *)

Section CatalogShape.
Import types polymarket History Samples Invariant.
Implicit Types (e : Exchange) (mm : gmap string Market.t).
Implicit Types (env : gmap string string) (fs : gmap string Go.file).

Lemma stamp_all_normalised mm : normalised (stamp_all mm).
Proof.
  intros k m. rewrite stamp_all_lookup.
  destruct (mm !! k) as [x|]; [|done]. intros [= <-].
  unfold stamp. destruct x. cbn. case_bool_decide; cbn; [|done].
  split; [done|]. by intros <-.
Qed.

Lemma QueryMarkets_fresh env fs e :
  len (markets e) = 0%nat →
  QueryMarkets env fs e
  = match loadMarketsFromEnv env fs with
    | inl err => (inl err, e)
    | inr loaded =>
        let mm := match loaded with
                  | Some mm => if bool_decide (size mm = 0%nat)
                               then defaultExampleMarkets else mm
                  | None => defaultExampleMarkets
                  end in
        (inr (Some (stamp_all mm)), with_markets (Some (stamp_all mm)) e)
    end.
Proof.
  intros Hlen. unfold QueryMarkets. rewrite Hlen.
  rewrite (bool_decide_eq_false_2 (0 < 0)%nat) by lia.
  by rewrite andb_false_r.
Qed.

Lemma serve_markets c e :
  markets (serve c e).2 = markets e
  ∨ ∃ mm, markets (serve c e).2 = Some (stamp_all mm) ∧ mm ≠ ∅.
Proof.
  destruct c as [env fs|env now order|symbol|now refs]; simpl.
  - unfold QueryMarkets.
    destruct (bool_decide (markets e ≠ None) && bool_decide (0 < len (markets e))%nat);
      [by left|].
    destruct (loadMarketsFromEnv env fs) as [err|loaded]; [by left|].
    right. simpl. eexists. split; [done|].
    destruct loaded as [mm|]; [|apply defaultExampleMarkets_not_empty].
    destruct (bool_decide (size mm = 0%nat)) eqn:Hsize;
      [apply defaultExampleMarkets_not_empty|].
    apply bool_decide_eq_false in Hsize. by apply map_size_non_empty_iff.
  - unfold SubmitOrder. destruct (negb (dryRun env)); by left.
  - by left.
  - by left.
Qed.

Lemma reachable_markets e :
  reachable e →
  markets e = None ∨ ∃ mm, markets e = Some mm ∧ mm ≠ ∅ ∧ normalised mm.
Proof.
  induction 1 as [key secret passphrase|c e _ IH]; [by left|].
  destruct (serve_markets c e) as [->|(mm & -> & Hne)]; [done|].
  right. exists (stamp_all mm). split; [done|]. split.
  - by rewrite stamp_all_empty.
  - apply stamp_all_normalised.
Qed.

(** X9. In every state the host can reach, a catalog that [QueryMarkets]
    returns is never empty, every record of it names this venue, and a
    record can lack a symbol only under the empty key: the others are filled
    in from their keys. *)
Theorem QueryMarkets_returns_a_normalised_catalog env fs e catalog e' :
  reachable e →
  QueryMarkets env fs e = (inr catalog, e') →
  ∃ mm, catalog = Some mm ∧ mm ≠ ∅ ∧ normalised mm.
Proof.
  intros He Hq.
  assert (reachable e') as He'.
  { replace e' with (serve (CallQueryMarkets env fs) e).2 by (simpl; by rewrite Hq).
    by apply reachable_serve. }
  apply QueryMarkets_caches in Hq as (mm & -> & Hne & Hcache).
  exists mm. split; [done|]. split; [done|].
  destruct (reachable_markets e' He') as [Hnone|(mm' & Hmm' & _ & Hnorm)].
  - by rewrite Hnone in Hcache.
  - rewrite Hmm' in Hcache. by injection Hcache as <-.
Qed.

Lemma QueryMarkets_returns_a_normalised_catalog_witness :
  ∃ mm, Some {[ "Y" := Market.with_Exchange ExchangePolymarket
                         (Market.with_Symbol "Y" market_Y) ]} = Some mm
        ∧ mm ≠ ∅ ∧ normalised mm.
Proof.
  apply (QueryMarkets_returns_a_normalised_catalog
           {[ envMarketsJSON := catalog_Y ]} ∅
           (run sample_history (New "k" "s" "p")).2
           (Some {[ "Y" := Market.with_Exchange ExchangePolymarket
                             (Market.with_Symbol "Y" market_Y) ]})
           (with_markets
              (Some {[ "Y" := Market.with_Exchange ExchangePolymarket
                                (Market.with_Symbol "Y" market_Y) ]})
              (run sample_history (New "k" "s" "p")).2)).
  - apply reachable_run, reachable_New.
  - vm_compute. reflexivity.
Defined.

(** X10. What the first [QueryMarkets] builds, while nothing is cached. The
    catalog has the keys of the loaded document and, under each, the record
    of the document with the venue set and a blank symbol replaced by the
    key, nothing else changed. When the loader returns nothing or an empty
    document (no key set, or a document that is [null] or an empty array),
    the catalog is the two built-in instruments instead. *)
Theorem QueryMarkets_builds_the_catalog env fs e :
  len (markets e) = 0%nat →
  (∀ mm, loadMarketsFromEnv env fs = inr (Some mm) → mm ≠ ∅ →
     ∃ catalog,
       QueryMarkets env fs e = (inr (Some catalog), with_markets (Some catalog) e)
       ∧ dom catalog = dom mm
       ∧ ∀ k m, mm !! k = Some m →
           catalog !! k
           = Some (Market.with_Exchange ExchangePolymarket
                     (if bool_decide (Market.Symbol m = "")
                      then Market.with_Symbol k m else m)))
  ∧ (∀ loaded, loadMarketsFromEnv env fs = inr loaded → len loaded = 0%nat →
       QueryMarkets env fs e
       = (inr (Some (Market.with_Exchange ExchangePolymarket <$> defaultExampleMarkets)),
          with_markets
            (Some (Market.with_Exchange ExchangePolymarket <$> defaultExampleMarkets)) e)
       ∧ dom (Market.with_Exchange ExchangePolymarket <$> defaultExampleMarkets)
         = ({[ "PM_BTC_15M_UP_YES_USDC"; "PM_BTC_15M_UP_NO_USDC" ]} : gset string)).
Proof.
  intros Hlen. rewrite (QueryMarkets_fresh env fs e Hlen). split.
  - intros mm -> Hne. exists (stamp_all mm). cbv zeta.
    rewrite bool_decide_eq_false_2 by by apply map_size_non_empty_iff.
    split; [done|]. split.
    + apply set_eq. intros k. rewrite !elem_of_dom, stamp_all_lookup.
      by rewrite fmap_is_Some.
    + intros k m Hk. rewrite stamp_all_lookup, Hk. simpl. f_equal.
      unfold stamp. destruct m. cbn. by case_bool_decide.
  - intros loaded -> Hloaded. cbv zeta.
    assert (stamp_all defaultExampleMarkets
            = Market.with_Exchange ExchangePolymarket <$> defaultExampleMarkets) as Hdefault.
    { vm_compute. reflexivity. }
    split.
    + destruct loaded as [mm|]; simpl in Hloaded.
      * rewrite bool_decide_eq_true_2 by done. by rewrite Hdefault.
      * by rewrite Hdefault.
    + vm_compute. reflexivity.
Qed.

Lemma QueryMarkets_builds_the_catalog_witness :
  (∃ catalog,
     QueryMarkets {[ envMarketsJSON := catalog_Y ]} ∅ (New "k" "s" "p")
     = (inr (Some catalog), with_markets (Some catalog) (New "k" "s" "p"))
     ∧ dom catalog = dom ({[ "Y" := market_Y ]} : gmap string Market.t)
     ∧ ∀ k m, ({[ "Y" := market_Y ]} : gmap string Market.t) !! k = Some m →
         catalog !! k
         = Some (Market.with_Exchange ExchangePolymarket
                   (if bool_decide (Market.Symbol m = "")
                    then Market.with_Symbol k m else m)))
  ∧ QueryMarkets {[ envMarketsJSON := "[]" ]} ∅ (New "k" "s" "p")
    = (inr (Some (Market.with_Exchange ExchangePolymarket <$> defaultExampleMarkets)),
       with_markets
         (Some (Market.with_Exchange ExchangePolymarket <$> defaultExampleMarkets))
         (New "k" "s" "p")).
Proof.
  split.
  - apply (proj1 (QueryMarkets_builds_the_catalog {[ envMarketsJSON := catalog_Y ]} ∅
                    (New "k" "s" "p") eq_refl)).
    + vm_compute. reflexivity.
    + apply insert_non_empty.
  - apply (proj2 (QueryMarkets_builds_the_catalog {[ envMarketsJSON := "[]" ]} ∅
                    (New "k" "s" "p") eq_refl) (Some ∅)).
    + vm_compute. reflexivity.
    + reflexivity.
Defined.

End CatalogShape.

(** ** More on loading and decoding *)

Section CatalogErrors.
Import types polymarket History Samples Invariant.
Implicit Types (e : Exchange) (mm : gmap string Market.t).
Implicit Types (env : gmap string string) (fs : gmap string Go.file).







Lemma index_markets_keyed arr (out0 out : gmap string Market.t) :
  index_markets arr out0 = inr out →
  (∀ k m, out0 !! k = Some m → Market.Symbol m = k ∧ k ≠ "") →
  ∀ k m, out !! k = Some m → Market.Symbol m = k ∧ k ≠ "" ∧ (m ∈ arr ∨ out0 !! k = Some m).
Proof.
  revert out0. induction arr as [|x arr IH]; intros out0; simpl.
  - intros [= <-] H0 k m Hk. destruct (H0 k m Hk). auto.
  - case_bool_decide as Hx; [done|]. intros Hidx H0 k m Hk.
    destruct (IH _ Hidx) with (k := k) (m := m) as (Hs & Hne & Hfrom); [|done|].
    + intros k' m'. rewrite lookup_insert. case_decide; [|apply H0].
      intros [= <-]. by subst k'.
    + split; [done|]. split; [done|].
      destruct Hfrom as [Hin|Hin]; [left; by apply elem_of_cons; right|].
      rewrite lookup_insert in Hin. case_decide; [|by right].
      injection Hin as <-. left. apply elem_of_cons. by left.
Qed.

(** X13. A catalog that is decoded from a JSON array is keyed by the symbols
    of its records: every record sits under its own symbol, which is not
    empty, and is one of the records of the array. *)
Theorem array_catalog_is_keyed_by_symbol b vs out :
  JSON.parse b = inr (JSON.Array vs) →
  decodeMarketsJSON b = inr (Some out) →
  ∃ arr, Unmarshal.markets vs = inr arr
         ∧ ∀ k m, out !! k = Some m → Market.Symbol m = k ∧ k ≠ "" ∧ m ∈ arr.
Proof.
  unfold decodeMarketsJSON, Unmarshal.MarketMap_of, Unmarshal.Markets_of.
  intros ->. simpl.
  destruct (Unmarshal.markets vs) as [cause|arr]; [done|].
  destruct (index_markets arr ∅) as [err|out'] eqn:Hidx; [done|].
  intros [= <-]. exists arr. split; [done|]. intros k m Hk.
  destruct (index_markets_keyed arr ∅ out' Hidx) with (k := k) (m := m)
    as (Hs & Hne & [Hin|Hin]); try done.
Qed.

Lemma array_catalog_is_keyed_by_symbol_witness :
  ∃ arr, Unmarshal.markets
           [JSON.Object [("symbol", JSON.Str "X"); ("baseCurrency", JSON.Str "X");
                         ("quoteCurrency", JSON.Str "USDC")]] = inr arr
         ∧ ∀ k m, ({[ "X" := market_X ]} : gmap string Market.t) !! k = Some m →
                  Market.Symbol m = k ∧ k ≠ "" ∧ m ∈ arr.
Proof.
  apply (array_catalog_is_keyed_by_symbol catalog_X).
  - vm_compute. reflexivity.
  - vm_compute. reflexivity.
Defined.

End CatalogErrors.

(** ** More on the submission gate *)

Section Gate.
Import types polymarket History Samples Invariant.



End Gate.

(** ** The ticker queries *)

Section Tickers.
Import types polymarket tickers.

Lemma tickers_from_lookup clock i symbol (out0 : gmap string Ticker) :
  ∃ out, tickers_from clock i symbol out0 = inr out
         ∧ ∀ s, (s ∉ symbol → out !! s = out0 !! s)
                ∧ (s ∈ symbol →
                   ∃ j, symbol !! j = Some s
                        ∧ (∀ j', (j < j')%nat → symbol !! j' ≠ Some s)
                        ∧ out !! s = Some (mkTicker (clock (i + j)%nat) 0 0 0 0 0 0 0)).
Proof.
  revert i out0. induction symbol as [|x symbol IH]; intros i out0.
  - exists out0. split; [done|]. intros s. split; [done|]. by intros ?%elem_of_nil.
  - simpl. destruct (IH (S i) (<[x := mkTicker (clock i) 0 0 0 0 0 0 0]> out0))
      as (out & -> & Hout).
    exists out. split; [done|]. intros s. destruct (Hout s) as [Hnot Hin]. split.
    + intros Hs. apply not_elem_of_cons in Hs as [Hne Hs].
      rewrite Hnot by done. by rewrite lookup_insert_ne.
    + intros Hs. destruct (decide (s ∈ symbol)) as [Hrest|Hrest].
      * destruct (Hin Hrest) as (j & Hj & Hlater & Hlook).
        exists (S j). split; [done|]. split.
        -- intros [|j'] Hj'; [lia|]. simpl. apply Hlater. lia.
        -- rewrite Hlook. by replace (S i + j)%nat with (i + S j)%nat by lia.
      * apply elem_of_cons in Hs as [->|Hs]; [|done].
        exists 0%nat. split; [done|]. split.
        -- intros [|j'] Hj'; [lia|]. simpl. intros Hx.
           by apply list_elem_of_lookup_2 in Hx.
        -- rewrite Hnot by done. rewrite lookup_insert_eq, Nat.add_0_r. done.
Qed.

(** X15. [QueryTickers] never fails. It returns one ticker for each symbol
    asked for, and for no other; a symbol asked for several times gets the
    ticker of its last occurrence. Every ticker carries the time of the clock
    when its symbol was handled and no price or volume at all. *)
Theorem QueryTickers_returns_bare_tickers clock symbol :
  ∃ out, QueryTickers clock symbol = inr out
         ∧ (∀ s, is_Some (out !! s) ↔ s ∈ symbol)
         ∧ ∀ s t, out !! s = Some t →
             ∃ j, symbol !! j = Some s
                  ∧ (∀ j', (j < j')%nat → symbol !! j' ≠ Some s)
                  ∧ t = mkTicker (clock j) 0 0 0 0 0 0 0.
Proof.
  destruct (tickers_from_lookup clock 0 symbol ∅) as (out & Hq & Hout).
  exists out. split; [done|]. split.
  - intros s. destruct (Hout s) as [Hnot Hin].
    destruct (decide (s ∈ symbol)) as [Hs|Hs].
    + destruct (Hin Hs) as (j & _ & _ & ->). split; [done|by eexists].
    + rewrite (Hnot Hs), lookup_empty. split; [by intros [? [=]]|done].
  - intros s t Ht. destruct (Hout s) as [Hnot Hin].
    destruct (decide (s ∈ symbol)) as [Hs|Hs].
    + destruct (Hin Hs) as (j & Hj & Hlater & Hlook).
      exists j. repeat (split; [done|]). simpl in Hlook. congruence.
    + rewrite (Hnot Hs), lookup_empty in Ht. done.
Qed.

End Tickers.

(** ** The example strategy *)

Section Strategy.
Import types polymarketbtcupdown.
Implicit Types (s : Strategy) (sessions : gset string).

Lemma or_default_set x d : d ≠ "" → or_default x d ≠ "".
Proof. intros Hd. unfold or_default. by case_bool_decide. Qed.

Lemma or_default_idemp x d : or_default (or_default x d) d = or_default x d.
Proof. unfold or_default. by repeat case_bool_decide. Qed.

Lemma or_default_value_sign x d : 0 < d → (0 < or_default_value x d ↔ 0 ≤ x).
Proof. intros Hd. unfold or_default_value. case_bool_decide; lia. Qed.

Lemma or_default_value_idemp x d : d ≠ 0 → or_default_value (or_default_value x d) d = or_default_value x d.
Proof. intros Hd. unfold or_default_value. by repeat case_bool_decide. Qed.

(** After [Defaults] the six names are set, and the two amounts are positive
    unless they were negative. *)
Lemma Validate_Defaults s :
  Validate (Defaults s)
  = if bool_decide (EntryPrice s < 0) then Some (Invalid "entryPrice must be positive")
    else if bool_decide (QuoteAmount s < 0) then Some (Invalid "quoteAmount must be positive")
    else None.
Proof.
  unfold Validate, Defaults. cbn [BinanceSession PolymarketSession SourceSymbol Interval
    YesSymbol NoSymbol EntryPrice QuoteAmount].
  rewrite !(bool_decide_eq_false_2 (or_default _ _ = "")) by by apply or_default_set.
  cbn [orb].
  pose proof (or_default_value_sign (EntryPrice s) half eq_refl) as Hp.
  pose proof (or_default_value_sign (QuoteAmount s) five eq_refl) as Hq.
  repeat case_bool_decide; try done; lia.
Qed.

(** X16. [Defaults] and [Validate] together. After [Defaults], [Validate]
    fails in one case only, a negative entry price or quote amount (a zero
    one is replaced by the default), and it names the price first.
    [Defaults] changes nothing in a configuration [Validate] accepts, and
    applying it twice is applying it once. *)
Theorem Defaults_completes_the_configuration s :
  (Validate (Defaults s) = None ↔ 0 ≤ EntryPrice s ∧ 0 ≤ QuoteAmount s)
  ∧ (EntryPrice s < 0 → Validate (Defaults s) = Some (Invalid "entryPrice must be positive"))
  ∧ (Validate s = None → Defaults s = s)
  ∧ Defaults (Defaults s) = Defaults s.
Proof.
  split; [|split; [|split]].
  - rewrite Validate_Defaults. repeat case_bool_decide; split; try done; lia.
  - intros Hp. rewrite Validate_Defaults. by rewrite bool_decide_eq_true_2.
  - unfold Validate, Defaults, or_default, or_default_value. destruct s. cbn.
    repeat case_bool_decide; try done; simpl; try done; lia.
  - unfold Defaults. cbn. rewrite !or_default_idemp.
    by rewrite !or_default_value_idemp by done.
Qed.

Lemma CrossRun_started s sessions :
  (CrossRun s sessions).2 = None →
  (CrossRun s sessions).1 = Defaults s ∧ 0 ≤ EntryPrice s ∧ 0 ≤ QuoteAmount s.
Proof.
  unfold CrossRun. rewrite Validate_Defaults.
  repeat case_bool_decide; simpl; try done. intros _. split; [done|lia].
Qed.

(** X17. [CrossRun] succeeds exactly when neither amount is negative and the
    two sessions, under the names given or else binance and polymarket, are
    among the sessions; a check of the configuration comes before the
    sessions, and the Binance session before the Polymarket one. In every
    case the strategy is left with its defaults filled in. *)
Theorem CrossRun_starts_the_strategy s sessions :
  (CrossRun s sessions).1 = Defaults s
  ∧ ((CrossRun s sessions).2 = None ↔
     0 ≤ EntryPrice s ∧ 0 ≤ QuoteAmount s
     ∧ or_default (BinanceSession s) "binance" ∈ sessions
     ∧ or_default (PolymarketSession s) "polymarket" ∈ sessions)
  ∧ (EntryPrice s < 0 ∨ QuoteAmount s < 0 →
     ∃ msg, (CrossRun s sessions).2 = Some (Invalid msg))
  ∧ (0 ≤ EntryPrice s → 0 ≤ QuoteAmount s →
     or_default (BinanceSession s) "binance" ∉ sessions →
     (CrossRun s sessions).2
     = Some (BinanceSessionNotFound (or_default (BinanceSession s) "binance"))).
Proof.
  unfold CrossRun. rewrite Validate_Defaults. cbn [Defaults BinanceSession PolymarketSession].
  split; [by repeat case_bool_decide|].
  split; [|split].
  - repeat case_bool_decide; simpl; naive_solver lia.
  - intros Hneg. repeat case_bool_decide; simpl; eauto; lia.
  - intros Hp Hq Hb. rewrite !bool_decide_eq_false_2 by lia.
    by rewrite (bool_decide_eq_false_2 (_ ∈ sessions)).
Qed.

Lemma CrossRun_starts_the_strategy_witness :
  (CrossRun (mkStrategy "" "pm" "" "" "" "" 0 0) ({[ "pm" ]} : gset string)).2
  = Some (BinanceSessionNotFound
            (or_default (BinanceSession (mkStrategy "" "pm" "" "" "" "" 0 0)) "binance")).
Proof.
  apply (proj2 (proj2 (proj2 (CrossRun_starts_the_strategy
           (mkStrategy "" "pm" "" "" "" "" 0 0) ({[ "pm" ]} : gset string))))).
  - vm_compute. discriminate.
  - vm_compute. discriminate.
  - cbn. intros Hin. apply elem_of_singleton in Hin. discriminate Hin.
Defined.

(** X18. The orders of a strategy that [CrossRun] has started. The handler
    hands an order to the router for exactly the closed candles of the
    source symbol and interval. The order is a limit buy, good till
    canceled, tagged with the strategy's name, at the entry price, which is
    positive, for the quote amount divided by that price; it is for the yes
    symbol when the candle closed above its open and for the no symbol
    otherwise, a flat candle included, and that symbol is not empty. When the
    configuration names neither symbol, it is one of the two instruments of
    the adapter's built-in catalog. *)
Theorem started_strategy_orders div s sessions kline :
  (CrossRun s sessions).2 = None →
  (is_Some (onKLineClosed div (CrossRun s sessions).1 kline)
   ↔ Symbol kline = or_default (SourceSymbol s) "BTCUSDT"
     ∧ KInterval kline = or_default (Interval s) Interval15m)
  ∧ ∀ order,
      onKLineClosed div (CrossRun s sessions).1 kline = Some order →
      SubmitOrder.Symbol order
      = (if bool_decide (Close kline > Open kline)
         then or_default (YesSymbol s) "PM_BTC_15M_UP_YES_USDC"
         else or_default (NoSymbol s) "PM_BTC_15M_UP_NO_USDC")
      ∧ SubmitOrder.Symbol order ≠ ""
      ∧ SubmitOrder.Price order = or_default_value (EntryPrice s) half
      ∧ 0 < SubmitOrder.Price order
      ∧ SubmitOrder.Quantity order
        = div (or_default_value (QuoteAmount s) five) (or_default_value (EntryPrice s) half)
      ∧ 0 < or_default_value (QuoteAmount s) five
      ∧ SubmitOrder.Side order = SideTypeBuy
      ∧ SubmitOrder.Type_ order = OrderTypeLimit
      ∧ SubmitOrder.TimeInForce order = TimeInForceGTC
      ∧ SubmitOrder.Tag order = ID
      ∧ (YesSymbol s = "" → NoSymbol s = "" →
         is_Some (polymarket.defaultExampleMarkets !! SubmitOrder.Symbol order)).
Proof.
  intros Hrun.
  apply CrossRun_started in Hrun as (-> & Hp & Hq).
  unfold onKLineClosed. cbn [Defaults SourceSymbol Interval YesSymbol NoSymbol EntryPrice
    QuoteAmount].
  split.
  - repeat case_bool_decide; simpl; split; try done; try tauto; by intros [? [=]].
  - intros order.
    destruct (negb _ || negb _); [done|]. intros [= <-]. cbn.
    split; [done|]. split.
    { case_bool_decide; by apply or_default_set. }
    split; [done|]. split; [by apply or_default_value_sign|].
    split; [done|]. split; [by apply or_default_value_sign|].
    repeat (split; [done|]).
    intros -> ->. unfold or_default. cbn. case_bool_decide; vm_compute; by eexists.
Qed.

Lemma started_strategy_orders_witness :
  (is_Some (onKLineClosed (λ a b, a * 10 ^ 8 / b)
              (CrossRun (mkStrategy "" "" "" "" "" "" 0 0)
                 ({[ "binance"; "polymarket" ]} : gset string)).1
              (mkKLine "BTCUSDT" "15m" 4200000000000 4200000000000))
   ↔ Symbol (mkKLine "BTCUSDT" "15m" 4200000000000 4200000000000)
       = or_default (SourceSymbol (mkStrategy "" "" "" "" "" "" 0 0)) "BTCUSDT"
     ∧ KInterval (mkKLine "BTCUSDT" "15m" 4200000000000 4200000000000)
       = or_default (Interval (mkStrategy "" "" "" "" "" "" 0 0)) Interval15m)
  ∧ ∀ order,
      onKLineClosed (λ a b, a * 10 ^ 8 / b)
        (CrossRun (mkStrategy "" "" "" "" "" "" 0 0)
           ({[ "binance"; "polymarket" ]} : gset string)).1
        (mkKLine "BTCUSDT" "15m" 4200000000000 4200000000000) = Some order →
      SubmitOrder.Symbol order
      = (if bool_decide (Close (mkKLine "BTCUSDT" "15m" 4200000000000 4200000000000)
                         > Open (mkKLine "BTCUSDT" "15m" 4200000000000 4200000000000))
         then or_default (YesSymbol (mkStrategy "" "" "" "" "" "" 0 0))
                "PM_BTC_15M_UP_YES_USDC"
         else or_default (NoSymbol (mkStrategy "" "" "" "" "" "" 0 0))
                "PM_BTC_15M_UP_NO_USDC")
      ∧ SubmitOrder.Symbol order ≠ ""
      ∧ SubmitOrder.Price order
        = or_default_value (EntryPrice (mkStrategy "" "" "" "" "" "" 0 0)) half
      ∧ 0 < SubmitOrder.Price order
      ∧ SubmitOrder.Quantity order
        = (λ a b, a * 10 ^ 8 / b)
            (or_default_value (QuoteAmount (mkStrategy "" "" "" "" "" "" 0 0)) five)
            (or_default_value (EntryPrice (mkStrategy "" "" "" "" "" "" 0 0)) half)
      ∧ 0 < or_default_value (QuoteAmount (mkStrategy "" "" "" "" "" "" 0 0)) five
      ∧ SubmitOrder.Side order = SideTypeBuy
      ∧ SubmitOrder.Type_ order = OrderTypeLimit
      ∧ SubmitOrder.TimeInForce order = TimeInForceGTC
      ∧ SubmitOrder.Tag order = ID
      ∧ (YesSymbol (mkStrategy "" "" "" "" "" "" 0 0) = "" →
         NoSymbol (mkStrategy "" "" "" "" "" "" 0 0) = "" →
         is_Some (polymarket.defaultExampleMarkets !! SubmitOrder.Symbol order)).
Proof.
  apply (started_strategy_orders (λ a b, a * 10 ^ 8 / b)
           (mkStrategy "" "" "" "" "" "" 0 0) ({[ "binance"; "polymarket" ]} : gset string)
           (mkKLine "BTCUSDT" "15m" 4200000000000 4200000000000)).
  vm_compute. reflexivity.
Defined.

End Strategy.
